(** * The XMake C/C++ custom configuration provider

    A shallow embedding of [src/cpp_custom_configuration_provider.ts]:
    the argument classifier ([isMSVC], [findIncludePaths], [findDefines],
    [findCompilerPath], [findCompiler], [findCompilerArgs]), the resolvers
    ([findStandard], [findIntelliSenseMode]), the fold step
    ([pushIfNotExist]) and the provider object with its queries and its
    rebuild entry point ([updateCompileCommands]).

    Strings are [string] (code units; every prefix the code tests is
    ASCII, so [substring] offsets agree with JavaScript's).  The compile
    commands come out of [JSON.parse] and are typed [any]: they are
    modelled as [json] values and every operation the code applies to them
    is given its dynamic meaning, a [TypeError] included.  JavaScript [Map]s
    keyed by strings are [gmap string _]. *)

From Stdlib Require Import ZArith Ascii String.
From stdpp Require Import base option list strings gmap fin_maps.

Local Open Scope string_scope.
Local Open Scope list_scope.

(** ** JavaScript values and completions *)

(** What [JSON.parse] produces.  The code never looks into a number, which
    is kept as an integer.  A JavaScript value that may be [undefined] is
    an [option json], [None] being [undefined]. *)
#[local] Unset Elimination Schemes.
Inductive json : Type :=
| JNull
| JBool (b : bool)
| JNum (n : Z)
| JStr (s : string)
| JArr (elems : list json)
| JObj (members : list (string * json)).
#[local] Set Elimination Schemes.

Inductive exn : Type := TypeError.

(** The outcome of evaluating an expression: a value, or a thrown error. *)
Inductive completion (A : Type) : Type :=
| Normal (a : A)
| Throw (e : exn).
Arguments Normal {A} a.
Arguments Throw {A} e.

#[global] Instance completion_ret : MRet completion := @Normal.
#[global] Instance completion_bind : MBind completion :=
  fun A B f m => match m with Normal a => f a | Throw e => Throw e end.

Definition typeof (v : option json) : string :=
  match v with
  | None => "undefined"
  | Some JNull => "object"
  | Some (JBool _) => "boolean"
  | Some (JNum _) => "number"
  | Some (JStr _) => "string"
  | Some (JArr _) => "object"
  | Some (JObj _) => "object"
  end.

(** Own property of a parsed object; [JSON.parse] keeps the last of
    several members with one name. *)
Definition member (k : string) (members : list (string * json)) : option json :=
  fold_left (fun acc kv => if String.eqb (fst kv) k then Some (snd kv) else acc)
            members None.

(** [v.k] for a name [k] that no prototype defines ([directory], [file],
    [arguments]): a [TypeError] on [null], the member on an object,
    [undefined] on everything else. *)
Definition getProp (v : json) (k : string) : completion (option json) :=
  match v with
  | JNull => Throw TypeError
  | JObj members => Normal (member k members)
  | _ => Normal None
  end.

(** [v[1]]. *)
Definition index1 (v : option json) : completion (option json) :=
  match v with
  | None | Some JNull => Throw TypeError
  | Some (JArr elems) => Normal (elems !! 1%nat)
  | Some (JObj members) => Normal (member "1" members)
  | Some (JStr s) =>
      Normal (match String.get 1 s with
              | Some c => Some (JStr (String c EmptyString))
              | None => None
              end)
  | Some _ => Normal None
  end.

(** [s.substring(n)]. *)
Fixpoint substring_from (n : nat) (s : string) : string :=
  match n, s with
  | O, _ => s
  | S n', String _ s' => substring_from n' s'
  | S _, EmptyString => EmptyString
  end.

(** [s.startsWith(p)]. *)
Definition startsWith (s p : string) : bool := String.prefix p s.

Definition lowerAscii (c : ascii) : ascii :=
  let n := nat_of_ascii c in
  if (65 <=? n)%nat && (n <=? 90)%nat then ascii_of_nat (n + 32) else c.

(** [s.toLowerCase()] on the letters A to Z.  The code compares the result
    with [cl] and with the names of the mode table only, and no character
    beyond ASCII lowercases to a letter of these. *)
Fixpoint toLowerCase (s : string) : string :=
  match s with
  | EmptyString => EmptyString
  | String c s' => String (lowerAscii c) (toLowerCase s')
  end.

(** [arg.startsWith(p)] on an element of unknown type: only strings have
    the method. *)
Definition js_startsWith (arg : json) (p : string) : completion bool :=
  match arg with
  | JStr s => Normal (startsWith s p)
  | _ => Throw TypeError
  end.

(** [arg.substring(n)]. *)
Definition js_substring (arg : json) (n : nat) : completion string :=
  match arg with
  | JStr s => Normal (substring_from n s)
  | _ => Throw TypeError
  end.

(** The string a value is.  [filter] returns elements of the array
    themselves; an element a [startsWith] callback kept is a string, so the
    kept ones are given as strings. *)
Definition str (v : json) : string :=
  match v with JStr s => s | _ => "" end.

Fixpoint filterM {A} (cb : A -> completion bool) (l : list A) : completion (list A) :=
  match l with
  | [] => Normal []
  | x :: l' =>
      b ← cb x;
      r ← filterM cb l';
      Normal (if b : bool then x :: r else r)
  end.

Fixpoint mapM {A B} (cb : A -> completion B) (l : list A) : completion (list B) :=
  match l with
  | [] => Normal []
  | x :: l' => y ← cb x; r ← mapM cb l'; Normal (y :: r)
  end.

Fixpoint findM {A} (cb : A -> completion bool) (l : list A) : completion (option A) :=
  match l with
  | [] => Normal None
  | x :: l' => b ← cb x; if b : bool then Normal (Some x) else findM cb l'
  end.

(** [args.filter(cb)]: only arrays have the method. *)
Definition js_filter (args : option json) (cb : json -> completion bool)
  : completion (list json) :=
  match args with
  | Some (JArr elems) => filterM cb elems
  | _ => Throw TypeError
  end.

(** [args.find(cb)]. *)
Definition js_find (args : option json) (cb : json -> completion bool)
  : completion (option json) :=
  match args with
  | Some (JArr elems) => findM cb elems
  | _ => Throw TypeError
  end.

(** ** The host: Node's [path] module, VS Code's [Uri], [JSON.stringify] *)

Class Host : Type := {
  (** [path.basename(p)], [path.isAbsolute(p)], [path.join(a, b)],
      [path.relative(from, to)] on strings *)
  path_basename : string -> string;
  path_isAbsolute : string -> bool;
  path_join : string -> string -> string;
  path_relative : string -> string -> string;
  (** [Uri.file(p).fsPath] *)
  Uri_file_fsPath : string -> string;
  JSON_stringify : json -> string
}.

(** The standard switch of [findStandard]. *)
Definition standardSwitch (std : string) : string :=
  if String.eqb std "c89" then "c89"
  else if String.eqb std "c99" then "c99"
  else if String.eqb std "c11" then "c11"
  else if String.eqb std "c17" then "c17"
  else if String.eqb std "c++98" then "c++98"
  else if String.eqb std "c++03" then "c++03"
  else if String.eqb std "c++11" then "c++11"
  else if String.eqb std "c++14" then "c++14"
  else if String.eqb std "c++17" then "c++17"
  else if String.eqb std "c++20" then "c++20"
  else if String.eqb std "gnu89" then "gnu89"
  else if String.eqb std "gnu99" then "gnu99"
  else if String.eqb std "gnu11" then "gnu11"
  else if String.eqb std "gnu17" then "gnu17"
  else if String.eqb std "gnu++98" then "gnu++98"
  else if String.eqb std "gnu++03" then "gnu++03"
  else if String.eqb std "gnu++11" then "gnu++11"
  else if String.eqb std "gnu++14" then "gnu++14"
  else if String.eqb std "gnu++17" then "gnu++17"
  else if String.eqb std "gnu++20" then "gnu++20"
  else "c++20".

(** The mode switch of [findIntelliSenseMode]. *)
Definition modeSwitch (comp_arch : string) : string :=
  if String.eqb comp_arch "msvc-x86" then "msvc-x86"
  else if String.eqb comp_arch "msvc-x64" then "msvc-x64"
  else if String.eqb comp_arch "msvc-arm" then "msvc-arm"
  else if String.eqb comp_arch "msvc-arm64" then "msvc-arm64"
  else if String.eqb comp_arch "gcc-x86" then "gcc-x86"
  else if String.eqb comp_arch "gcc-x64" then "gcc-x64"
  else if String.eqb comp_arch "gcc-arm" then "gcc-arm"
  else if String.eqb comp_arch "gcc-arm64" then "gcc-arm64"
  else if String.eqb comp_arch "clang-x86" then "clang-x86"
  else if String.eqb comp_arch "clang-x64" then "clang-x64"
  else if String.eqb comp_arch "clang-arm" then "clang-arm"
  else if String.eqb comp_arch "clang-arm64" then "clang-arm64"
  else "msvc-x86".

(** [pushIfNotExist(to, from)].  [to] is what [Map.get] returned: an array
    or [undefined]; the array is changed in place, which the caller of this
    model writes back.  On [undefined] the first [to.indexOf] throws. *)
Fixpoint pushIfNotExist (to : option (list string)) (from : list string)
  : completion (option (list string)) :=
  match from with
  | [] => Normal to
  | incoming :: from' =>
      match to with
      | None => Throw TypeError
      | Some arr =>
          if bool_decide (incoming ∈ arr)
          then pushIfNotExist (Some arr) from'
          else pushIfNotExist (Some (arr ++ [incoming])) from'
      end
  end.

Section Classifier.
Context `{Host}.

(** [path.basename(x)] validates that its argument is a string. *)
Definition basename_of (x : option json) : completion string :=
  match x with
  | Some (JStr s) => Normal (path_basename s)
  | _ => Throw TypeError
  end.

Definition isMSVC (args : option json) : completion bool :=
  a1 ← index1 args;
  b ← basename_of a1;
  Normal (String.eqb (toLowerCase b) "cl").

Definition findIncludePaths (dir : string) (args : option json)
  : completion (list string) :=
  msvc ← isMSVC args;
  let includeOptionPrefix := if msvc : bool then "/I" else "-I" in
  kept ← js_filter args (fun arg => js_startsWith arg includeOptionPrefix);
  mapM (fun inc =>
          includePath ← js_substring inc 2;
          Normal (if path_isAbsolute includePath then includePath
                  else path_join dir includePath)) kept.

Definition findDefines (args : option json) : completion (list string) :=
  msvc ← isMSVC args;
  let defineOptionPrefix := if msvc : bool then "/D" else "-D" in
  kept ← js_filter args (fun arg => js_startsWith arg defineOptionPrefix);
  mapM (fun def => js_substring def 2) kept.

Definition findCompilerPath (args : option json) : completion (option json) :=
  index1 args.

Definition findCompiler (args : option json) : completion string :=
  a1 ← index1 args;
  b ← basename_of a1;
  Normal (toLowerCase b).

Definition findCompilerArgs (args : option json) : completion (list string) :=
  msvc ← isMSVC args;
  let optionPrefix := if msvc : bool then "/" else "-" in
  kept ← js_filter args (fun arg =>
    b0 ← js_startsWith arg optionPrefix;
    if negb b0 then Normal false else
    b1 ← js_startsWith arg (optionPrefix +:+ "I");
    if b1 : bool then Normal false else
    b2 ← js_startsWith arg (optionPrefix +:+ "D");
    if b2 : bool then Normal false else
    b3 ← js_startsWith arg (optionPrefix +:+ "o");
    if b3 : bool then Normal false else
    b4 ← js_startsWith arg (optionPrefix +:+ "std");
    Normal (negb b4));
  Normal (map str kept).

Definition findStandard (args : option json) : completion string :=
  msvc ← isMSVC args;
  let standardPrefix := if msvc : bool then "/std:" else "-std=" in
  stdArg ← js_find args (fun arg => js_startsWith arg standardPrefix);
  match stdArg with
  | Some arg => std ← js_substring arg 5; Normal (standardSwitch std)
  | None => Normal "c++20"
  end.

Definition findIntelliSenseMode (args : option json) (platform architecture : string)
  : completion string :=
  let intelliArch := if String.eqb architecture "x86" then "x86" else "x64" in
  comp ← findCompiler args;
  let comp_arch := (comp +:+ "-") +:+ intelliArch in
  Normal (modeSwitch comp_arch).

End Classifier.

(** ** The provider object *)

Record SourceFileConfiguration : Type := {
  includePath : list string;
  defines : list string;
  compilerPath : option json;
  compilerArgs : list string;
  standard : string;
  intelliSenseMode : string
}.

(** [uri] is the path [Uri.file] was given; its [fsPath] is
    [Uri_file_fsPath uri]. *)
Record SourceFileConfigurationItem : Type := {
  uri : string;
  configuration : SourceFileConfiguration
}.

Record XMakeCppCustomConfigurationProvider : Type := {
  _sourceFileConfigurations : gmap string SourceFileConfigurationItem;
  _workspaceBrowsePaths : gmap string (list string);
  _workspaceCompilerArgs : gmap string (list string);
  _workspaceCompiler : gmap string (option json);
  _workspaceStandard : gmap string string
}.

(** What [provideBrowseConfiguration] and [provideFolderBrowseConfiguration]
    resolve with: four [Map.get] results. *)
Record WorkspaceBrowseConfiguration : Type := {
  browsePath : option (list string);
  browseCompilerArgs : option (list string);
  browseCompilerPath : option (option json);
  browseStandard : option string
}.

(** The provider together with what it has written to [console.error]. *)
Record world : Type := {
  this : XMakeCppCustomConfigurationProvider;
  console : list string
}.

(** [forEach] over an array with a callback that changes the state [S] and
    may throw, which ends the loop. *)
Fixpoint forEach {S A} (cb : S -> A -> S * completion unit) (l : list A) (s : S)
  : S * completion unit :=
  match l with
  | [] => (s, Normal ())
  | x :: l' =>
      match cb s x with
      | (s', Normal _) => forEach cb l' s'
      | (s', Throw e) => (s', Throw e)
      end
  end.

(** [m.forEach(x => { x = v })]: [cb] gives the value of the callback's
    parameter when it returns, which [Map.prototype.forEach] discards. *)
Definition Map_forEach {V L} (cb : V -> L) (m : gmap string V) : gmap string V :=
  map_fold (fun _ v acc => let _param := cb v in acc) m m.

(** The array [Map.get] returned was changed in place. *)
Definition writeBack {V} (k : string) (arr : option V) (m : gmap string V)
  : gmap string V :=
  match arr with
  | Some a => <[k := a]> m
  | None => m
  end.

(** [items.push(x)] on a variable that may never have been assigned. *)
Definition array_push {A} (arr : option (list A)) (x : A) : completion (option (list A)) :=
  match arr with
  | None => Throw TypeError
  | Some l => Normal (Some (l ++ [x]))
  end.

Section Provider.
Context `{Host}.

(** [vscode.workspace.workspaceFolders] is given as the [fsPath]s of the
    folders, [None] when it is [undefined]. *)
Definition constructor (workspaceFolders : option (list string))
  : completion XMakeCppCustomConfigurationProvider :=
  match workspaceFolders with
  | None => Throw TypeError
  | Some folders =>
      Normal
        (fold_left
           (fun p folder =>
              {| _sourceFileConfigurations := _sourceFileConfigurations p;
                 _workspaceBrowsePaths := <[folder := []]> (_workspaceBrowsePaths p);
                 _workspaceCompilerArgs := <[folder := []]> (_workspaceCompilerArgs p);
                 _workspaceCompiler := _workspaceCompiler p;
                 _workspaceStandard := _workspaceStandard p |})
           folders
           {| _sourceFileConfigurations := ∅;
              _workspaceBrowsePaths := ∅;
              _workspaceCompilerArgs := ∅;
              _workspaceCompiler := ∅;
              _workspaceStandard := ∅ |})
  end.

Definition canProvideConfiguration (p : XMakeCppCustomConfigurationProvider)
    (uri_fsPath : string) : bool :=
  bool_decide (is_Some (_sourceFileConfigurations p !! uri_fsPath)).

(** The loop of [provideConfigurations]; [items] is declared and never
    assigned, so it starts as [undefined] ([None]). *)
Fixpoint provideLoop (p : XMakeCppCustomConfigurationProvider)
    (uris : list string) (items : option (list SourceFileConfigurationItem))
  : completion (option (list SourceFileConfigurationItem)) :=
  match uris with
  | [] => Normal items
  | uri_fsPath :: rest =>
      match _sourceFileConfigurations p !! uri_fsPath with
      | Some item => items' ← array_push items item; provideLoop p rest items'
      | None => provideLoop p rest items
      end
  end.

(** The value the returned promise resolves with, or the error thrown
    before a promise is made. *)
Definition provideConfigurations (p : XMakeCppCustomConfigurationProvider)
    (uris : list string) : completion (option (list SourceFileConfigurationItem)) :=
  provideLoop p uris None.

Definition canProvideBrowseConfiguration (p : XMakeCppCustomConfigurationProvider) : bool :=
  bool_decide (0 < size (_workspaceBrowsePaths p)).

Definition browseOf (p : XMakeCppCustomConfigurationProvider) (folder : string)
  : WorkspaceBrowseConfiguration :=
  {| browsePath := _workspaceBrowsePaths p !! folder;
     browseCompilerArgs := _workspaceCompilerArgs p !! folder;
     browseCompilerPath := _workspaceCompiler p !! folder;
     browseStandard := _workspaceStandard p !! folder |}.


Definition canProvideBrowseConfigurationsPerFolder
    (p : XMakeCppCustomConfigurationProvider) : bool :=
  bool_decide (0 < size (_workspaceBrowsePaths p)).

(** [None] is the [null] the promise resolves with. *)
Definition provideFolderBrowseConfiguration (p : XMakeCppCustomConfigurationProvider)
    (uri_fsPath : string) : option WorkspaceBrowseConfiguration :=
  if bool_decide (is_Some (_workspaceBrowsePaths p !! uri_fsPath))
  then Some (browseOf p uri_fsPath)
  else None.

(** Lines 249-267: the item of one validated command. *)
Definition makeItem (directory file : string) (arguments : option json)
    (platform architecture : string) : completion SourceFileConfigurationItem :=
  let uri := if path_isAbsolute file then file else path_join directory file in
  includePaths ← findIncludePaths directory arguments;
  compilerPath ← findCompilerPath arguments;
  compilerArgs ← findCompilerArgs arguments;
  standard ← findStandard arguments;
  defines ← findDefines arguments;
  mode ← findIntelliSenseMode arguments platform architecture;
  Normal {| uri := uri;
            configuration :=
              {| includePath := includePaths;
                 defines := defines;
                 compilerPath := compilerPath;
                 compilerArgs := compilerArgs;
                 standard := standard;
                 intelliSenseMode := mode |} |}.

(** Lines 274-281: one workspace folder for one item. *)
Definition foldFolder (item : SourceFileConfigurationItem)
    (p : XMakeCppCustomConfigurationProvider) (folder : string)
  : XMakeCppCustomConfigurationProvider * completion unit :=
  let c := configuration item in
  let relativePath := path_relative (Uri_file_fsPath (uri item)) folder in
  if startsWith relativePath ".." || startsWith relativePath "." then
    match pushIfNotExist (_workspaceBrowsePaths p !! folder) (includePath c) with
    | Throw e => (p, Throw e)
    | Normal paths =>
        let p1 :=
          {| _sourceFileConfigurations := _sourceFileConfigurations p;
             _workspaceBrowsePaths := writeBack folder paths (_workspaceBrowsePaths p);
             _workspaceCompilerArgs := _workspaceCompilerArgs p;
             _workspaceCompiler := _workspaceCompiler p;
             _workspaceStandard := _workspaceStandard p |} in
        match pushIfNotExist (_workspaceCompilerArgs p !! folder) (compilerArgs c) with
        | Throw e => (p1, Throw e)
        | Normal args =>
            ({| _sourceFileConfigurations := _sourceFileConfigurations p;
                _workspaceBrowsePaths := _workspaceBrowsePaths p1;
                _workspaceCompilerArgs := writeBack folder args (_workspaceCompilerArgs p);
                _workspaceCompiler := <[folder := compilerPath c]> (_workspaceCompiler p);
                _workspaceStandard := <[folder := standard c]> (_workspaceStandard p) |},
             Normal ())
        end
    end
  else (p, Normal ()).

(** Lines 245-287: the callback of [compileCommands.forEach].  The guard
    reads [cmd.directory], [cmd.file] and [cmd.arguments], which throws
    when [cmd] is [null]; [typeof v == 'string'] holds of the [JStr]
    values and of no other, so the first two tests are the two [JStr]
    patterns.  A command the guard rejects is reported on [console.error],
    which is the second branch and the last. *)
Definition processCommand (workspaceFolders : option (list string))
    (platform architecture : string) (w : world) (cmd : json)
  : world * completion unit :=
  match getProp cmd "directory", getProp cmd "file", getProp cmd "arguments" with
  | Normal (Some (JStr directory)), Normal (Some (JStr file)), Normal arguments =>
      if String.eqb (typeof arguments) "object" then
        match makeItem directory file arguments platform architecture with
        | Throw e => (w, Throw e)
        | Normal srcConfig =>
            let p := this w in
            let p0 :=
              {| _sourceFileConfigurations :=
                   <[Uri_file_fsPath (uri srcConfig) := srcConfig]>
                     (_sourceFileConfigurations p);
                 _workspaceBrowsePaths := _workspaceBrowsePaths p;
                 _workspaceCompilerArgs := _workspaceCompilerArgs p;
                 _workspaceCompiler := _workspaceCompiler p;
                 _workspaceStandard := _workspaceStandard p |} in
            match workspaceFolders with
            | None => ({| this := p0; console := console w |}, Throw TypeError)
            | Some folders =>
                let '(p', r) := forEach (foldFolder srcConfig) folders p0 in
                ({| this := p'; console := console w |}, r)
            end
        end
      else
        ({| this := this w;
            console := console w ++
              [("Failed to process compile command '" +:+ JSON_stringify cmd) +:+ "'"] |},
         Normal ())
  | Throw e, _, _ | _, Throw e, _ | _, _, Throw e => (w, Throw e)
  | _, _, _ =>
      ({| this := this w;
          console := console w ++
            [("Failed to process compile command '" +:+ JSON_stringify cmd) +:+ "'"] |},
       Normal ())
  end.

(** Lines 237-288.  [compileCommands] is what [JSON.parse] returned. *)
Definition updateCompileCommands (workspaceFolders : option (list string))
    (compileCommands : json) (platform architecture : string) (w : world)
  : world * completion unit :=
  let p := this w in
  let w0 :=
    {| this :=
         {| _sourceFileConfigurations := ∅;
            _workspaceBrowsePaths :=
              Map_forEach (fun paths => @nil string) (_workspaceBrowsePaths p);
            _workspaceCompilerArgs :=
              Map_forEach (fun args => @nil string) (_workspaceCompilerArgs p);
            _workspaceCompiler :=
              Map_forEach (fun compiler => @None json) (_workspaceCompiler p);
            _workspaceStandard :=
              Map_forEach (fun standard => @None string) (_workspaceStandard p) |};
       console := console w |} in
  match compileCommands with
  | JArr cmds => forEach (processCommand workspaceFolders platform architecture) cmds w0
  | _ => (w0, Throw TypeError)
  end.

End Provider.

(** ** A POSIX host

    Node's [path.posix] and VS Code's [Uri.file(..).fsPath] off Windows,
    after their documentation: [join] joins the non-empty parts with [/]
    and normalizes the result, [normalize] drops empty and [.] segments,
    resolves [..] against the segment before it and keeps a trailing
    separator, [relative] resolves both paths against the working
    directory and walks up from [from] to the common ancestor.  Paths are
    handled by segment. *)
Module Posix.

Definition slash : ascii := "/"%char.

Fixpoint split (s : string) : list string :=
  match s with
  | EmptyString => [EmptyString]
  | String c s' =>
      if Ascii.eqb c slash then EmptyString :: split s'
      else match split s' with
           | [] => [String c EmptyString]
           | seg :: segs => String c seg :: segs
           end
  end.

Fixpoint joinWith (sep : string) (segs : list string) : string :=
  match segs with
  | [] => ""
  | [seg] => seg
  | seg :: segs' => seg +:+ sep +:+ joinWith sep segs'
  end.

Definition isAbsolute (p : string) : bool :=
  match p with
  | String c _ => Ascii.eqb c slash
  | EmptyString => false
  end.

Fixpoint endsWithSlash (p : string) : bool :=
  match p with
  | EmptyString => false
  | String c EmptyString => Ascii.eqb c slash
  | String _ p' => endsWithSlash p'
  end.

(** [normalizeString]: [done] holds the segments kept so far, last
    first. *)
Fixpoint normalizeSegments (allowAboveRoot : bool) (done segs : list string)
  : list string :=
  match segs with
  | [] => rev done
  | seg :: segs' =>
      if String.eqb seg "" || String.eqb seg "." then
        normalizeSegments allowAboveRoot done segs'
      else if String.eqb seg ".." then
        match done with
        | last :: done' =>
            if String.eqb last ".."
            then normalizeSegments allowAboveRoot
                   (if allowAboveRoot then ".." :: done else done) segs'
            else normalizeSegments allowAboveRoot done' segs'
        | [] =>
            normalizeSegments allowAboveRoot
              (if allowAboveRoot then [".."] else []) segs'
        end
      else normalizeSegments allowAboveRoot (seg :: done) segs'
  end.

Definition normalize (p : string) : string :=
  if String.eqb p "" then "." else
  let abs := isAbsolute p in
  let trailingSeparator := endsWithSlash p in
  let body := joinWith "/" (normalizeSegments (negb abs) [] (split p)) in
  if String.eqb body "" then
    if abs then "/" else if trailingSeparator then "./" else "."
  else
    let body := if trailingSeparator then body +:+ "/" else body in
    if abs then "/" +:+ body else body.

Definition join (a b : string) : string :=
  match String.eqb a "", String.eqb b "" with
  | true, true => "."
  | true, false => normalize b
  | false, true => normalize a
  | false, false => normalize (a +:+ "/" +:+ b)
  end.

Definition basename (p : string) : string :=
  List.last (List.filter (fun seg => negb (String.eqb seg "")) (split p)) "".

(** [path.resolve(p)], as segments below the root; [cwd] is
    [process.cwd()]. *)
Definition resolveSegments (cwd p : string) : list string :=
  normalizeSegments false []
    (split (if isAbsolute p then p
            else if String.eqb p "" then cwd
            else cwd +:+ "/" +:+ p)).

Fixpoint dropCommon (xs ys : list string) : list string * list string :=
  match xs, ys with
  | x :: xs', y :: ys' =>
      if String.eqb x y then dropCommon xs' ys' else (xs, ys)
  | _, _ => (xs, ys)
  end.

Definition relative (cwd from to : string) : string :=
  if String.eqb from to then "" else
  let '(up, down) := dropCommon (resolveSegments cwd from) (resolveSegments cwd to) in
  joinWith "/" (map (fun _ => "..") up ++ down).

Definition isLetter (c : ascii) : bool :=
  let n := nat_of_ascii c in
  ((65 <=? n)%nat && (n <=? 90)%nat) || ((97 <=? n)%nat && (n <=? 122)%nat).

(** [Uri.file(p)]: a path that starts with two slashes names an
    authority; the path of a [file] URI starts with a slash. *)
Definition Uri_file (p : string) : string * string :=
  let '(authority, path) :=
    match p with
    | String a (String b rest) =>
        if Ascii.eqb a slash && Ascii.eqb b slash then
          match split rest with
          | [] => ("", "/")
          | authority :: segs =>
              (authority,
               match segs with
               | [] => "/"
               | _ => "/" +:+ joinWith "/" segs
               end)
          end
        else ("", p)
    | _ => ("", p)
    end in
  (authority,
   if String.eqb path "" then "/"
   else if isAbsolute path then path else "/" +:+ path).

(** [uri.fsPath]. *)
Definition fsPath (u : string * string) : string :=
  let '(authority, path) := u in
  if negb (String.eqb authority "") && (1 <? String.length path)%nat then
    "//" +:+ authority +:+ path
  else
    match path with
    | String a (String d (String c rest)) =>
        if Ascii.eqb a slash && isLetter d && Ascii.eqb c ":"%char
        then String (lowerAscii d) (String c rest)
        else path
    | _ => path
    end.

(** [JSON.stringify], which only the diagnostic's text depends on, is
    left out of the model of the host: the text names the command by
    [label]. *)
Definition host (cwd : string) (label : json -> string) : Host :=
  {| path_basename := basename;
     path_isAbsolute := isAbsolute;
     path_join := join;
     path_relative := relative cwd;
     Uri_file_fsPath := fun p => fsPath (Uri_file p);
     JSON_stringify := label |}.

End Posix.

(** ** Argument vectors

    The data model's [arguments]: an array of strings.  [argv l] is the
    JavaScript value of the array whose elements are the strings of [l]. *)
Definition argv (l : list string) : option json := Some (JArr (JStr <$> l)).

(** The flag prefix of a flavor. *)
Definition flavorPrefix (msvc : bool) : string := if msvc then "/" else "-".

(** The closed set of standard identifiers. *)
Definition recognizedStandards : list string :=
  ["c89"; "c99"; "c11"; "c17"; "gnu89"; "gnu99"; "gnu11"; "gnu17";
   "c++98"; "c++03"; "c++11"; "c++14"; "c++17"; "c++20";
   "gnu++98"; "gnu++03"; "gnu++11"; "gnu++14"; "gnu++17"; "gnu++20"].

(** The rows of the IntelliSense-mode table, as (compiler, architecture). *)
Definition modeTable : list (string * string) :=
  [("msvc", "x86"); ("msvc", "x64"); ("msvc", "arm"); ("msvc", "arm64");
   ("gcc", "x86"); ("gcc", "x64"); ("gcc", "arm"); ("gcc", "arm64");
   ("clang", "x86"); ("clang", "x64"); ("clang", "arm"); ("clang", "arm64")].

(** The architecture [findIntelliSenseMode] looks up. *)
Definition canonicalArch (architecture : string) : string :=
  if String.eqb architecture "x86" then "x86" else "x64".

(** The test of [findCompilerArgs] on one string. *)
Definition passThrough (msvc : bool) (arg : string) : bool :=
  startsWith arg (flavorPrefix msvc)
  && negb (startsWith arg (flavorPrefix msvc +:+ "I"))
  && negb (startsWith arg (flavorPrefix msvc +:+ "D"))
  && negb (startsWith arg (flavorPrefix msvc +:+ "o"))
  && negb (startsWith arg (flavorPrefix msvc +:+ "std")).

(** ** Vocabulary of the proofs *)

(** The rest of [t] before a suffix [suf], when [t] ends with it. *)
Definition stripSuffix (suf t : string) : option string :=
  let tl := list_ascii_of_string t in
  let n := (List.length tl - String.length suf)%nat in
  if bool_decide (drop n tl = list_ascii_of_string suf)
  then Some (string_of_list_ascii (take n tl))
  else None.

(** A second run of a loop over a state that has absorbed the first run.
    [ext s s'] says that [s'] has what [s] has; [R s t f] relates the state
    [s] of the first run, the state [t] of the second run at the same point
    of the loop and a state [f] the first run is heading for.  A callback
    is absorbing when the second run follows the first, step by step, to
    the same end. *)
Definition absorbing {X A} (ext : X -> X -> Prop) (R : X -> X -> X -> Prop)
    (cb : X -> A -> X * completion unit) : Prop :=
  (forall s x, ext s (fst (cb s x))) /\
  (forall s t f x s',
     cb s x = (s', Normal ()) -> ext s' f -> R s t f ->
     exists t', cb t x = (t', Normal ()) /\ R s' t' f) /\
  (forall s t x s' e,
     cb s x = (s', Throw e) -> R s t s' ->
     exists t', cb t x = (t', Throw e) /\ R s' t' s').

(** The arrays of [m'] extend those of [m]; no key comes or goes. *)
Definition extends (m m' : gmap string (list string)) : Prop :=
  forall f, match m !! f with
            | Some l => exists l', m' !! f = Some (l ++ l')
            | None => m' !! f = None
            end.

Definition grows (s s' : XMakeCppCustomConfigurationProvider) : Prop :=
  extends (_workspaceBrowsePaths s) (_workspaceBrowsePaths s') /\
  extends (_workspaceCompilerArgs s) (_workspaceCompilerArgs s').

(** Each key of [mt] holds what the first run ends with or what it holds
    now. *)
Definition lastWrites {V} (ms mt mf : gmap string V) : Prop :=
  forall f, mt !! f = mf !! f \/ mt !! f = ms !! f.

Definition rerun (s t f : XMakeCppCustomConfigurationProvider) : Prop :=
  _sourceFileConfigurations t = _sourceFileConfigurations s /\
  _workspaceBrowsePaths t = _workspaceBrowsePaths f /\
  _workspaceCompilerArgs t = _workspaceCompilerArgs f /\
  lastWrites (_workspaceCompiler s) (_workspaceCompiler t) (_workspaceCompiler f) /\
  lastWrites (_workspaceStandard s) (_workspaceStandard t) (_workspaceStandard f).

(** What the first five statements of [updateCompileCommands] leave. *)
Definition cleared (p : XMakeCppCustomConfigurationProvider)
  : XMakeCppCustomConfigurationProvider :=
  {| _sourceFileConfigurations := ∅;
     _workspaceBrowsePaths := _workspaceBrowsePaths p;
     _workspaceCompilerArgs := _workspaceCompilerArgs p;
     _workspaceCompiler := _workspaceCompiler p;
     _workspaceStandard := _workspaceStandard p |}.

Definition aggregatesNoDup (p : XMakeCppCustomConfigurationProvider) : Prop :=
  forall folder,
    (forall l, _workspaceBrowsePaths p !! folder = Some l -> NoDup l) /\
    (forall l, _workspaceCompilerArgs p !! folder = Some l -> NoDup l).

Section Verdicts.
Context `{Host}.

(** What the guard and the classifier make of one command; it does not
    depend on the provider. *)
Inductive verdict : Type :=
| Malformed
| Raises (e : exn)
| Valid (item : SourceFileConfigurationItem).

Definition verdictOf (cmd : json) (platform architecture : string) : verdict :=
  match getProp cmd "directory", getProp cmd "file", getProp cmd "arguments" with
  | Normal (Some (JStr directory)), Normal (Some (JStr file)), Normal arguments =>
      if String.eqb (typeof arguments) "object" then
        match makeItem directory file arguments platform architecture with
        | Throw e => Raises e
        | Normal item => Valid item
        end
      else Malformed
  | Throw e, _, _ | _, Throw e, _ | _, _, Throw e => Raises e
  | _, _, _ => Malformed
  end.

(** The guard of line 247, as the source writes it. *)
Definition guard (cmd : json) : completion bool :=
  directory ← getProp cmd "directory";
  file ← getProp cmd "file";
  arguments ← getProp cmd "arguments";
  Normal (String.eqb (typeof directory) "string"
          && String.eqb (typeof file) "string"
          && String.eqb (typeof arguments) "object").

Definition storeItem (item : SourceFileConfigurationItem)
    (p : XMakeCppCustomConfigurationProvider) : XMakeCppCustomConfigurationProvider :=
  {| _sourceFileConfigurations :=
       <[Uri_file_fsPath (uri item) := item]> (_sourceFileConfigurations p);
     _workspaceBrowsePaths := _workspaceBrowsePaths p;
     _workspaceCompilerArgs := _workspaceCompilerArgs p;
     _workspaceCompiler := _workspaceCompiler p;
     _workspaceStandard := _workspaceStandard p |}.

Definition diagnostic (cmd : json) : string :=
  ("Failed to process compile command '" +:+ JSON_stringify cmd) +:+ "'".

Definition applyVerdict (workspaceFolders : option (list string)) (cmd : json)
    (v : verdict) (w : world) : world * completion unit :=
  match v with
  | Malformed =>
      ({| this := this w; console := console w ++ [diagnostic cmd] |}, Normal ())
  | Raises e => (w, Throw e)
  | Valid item =>
      match workspaceFolders with
      | None => ({| this := storeItem item (this w); console := console w |},
                 Throw TypeError)
      | Some folders =>
          let '(p', r) := forEach (foldFolder item) folders (storeItem item (this w)) in
          ({| this := p'; console := console w |}, r)
      end
  end.

(** The providers there can be: a constructed one, and one more rebuild of
    such a provider, with whatever inputs. *)
Inductive reachable : XMakeCppCustomConfigurationProvider -> Prop :=
| reachable_new workspaceFolders p :
    constructor workspaceFolders = Normal p -> reachable p
| reachable_rebuilt p workspaceFolders compileCommands platform architecture out :
    reachable p ->
    reachable
      (this (fst (updateCompileCommands workspaceFolders compileCommands
                    platform architecture {| this := p; console := out |}))).

End Verdicts.

Definition grows_w (s s' : world) : Prop := grows (this s) (this s').
Definition rerun_w (s t f : world) : Prop := rerun (this s) (this t) (this f).

(** ** The scenario of the specification, on a POSIX host *)

Definition scenarioArguments : list string :=
  ["sh"; "/usr/bin/g++"; "-I../inc"; "-DFOO"; "-std=c++17"; "-Wall"].

Definition scenarioEntry : json :=
  JObj [("directory", JStr "/p"); ("file", JStr "/p/a.cpp");
        ("arguments", JArr (JStr <$> scenarioArguments))].

Definition scenarioItem : SourceFileConfigurationItem :=
  {| uri := "/p/a.cpp";
     configuration :=
       {| includePath := ["/inc"];
          defines := ["FOO"];
          compilerPath := Some (JStr "/usr/bin/g++");
          compilerArgs := ["-Wall"];
          standard := "c++17";
          intelliSenseMode := "msvc-x86" |} |}.

(** A provider for the one workspace folder [/p], before any rebuild. *)
Definition freshProvider : XMakeCppCustomConfigurationProvider :=
  {| _sourceFileConfigurations := ∅;
     _workspaceBrowsePaths := {[ "/p" := [] ]};
     _workspaceCompilerArgs := {[ "/p" := [] ]};
     _workspaceCompiler := ∅;
     _workspaceStandard := ∅ |}.

Definition freshWorld : world := {| this := freshProvider; console := [] |}.

(** [JSON.stringify] is not modelled; the scenarios name every command
    alike in the diagnostic. *)
Definition posixHost : Host := Posix.host "/" (fun _ => "[command]").

(** ** Vocabulary of the further properties *)

(** An argument vector: the value of an array of strings that has the
    element 1. *)
Definition isArgumentVector (args : option json) : Prop :=
  exists (l : list string) (c : string), args = argv l /\ l !! 1%nat = Some c.

(** The array after [pushIfNotExist(arr, from)]. *)
Definition pushed (arr from : list string) : list string :=
  fold_left (fun a incoming => if bool_decide (incoming ∈ a) then a else a ++ [incoming])
            from arr.

(** What lines 277-280 make of the aggregate of a folder [item] is
    attributed to; an array that is not there stays away. *)
Definition foldInto (item : SourceFileConfigurationItem) (b : WorkspaceBrowseConfiguration)
  : WorkspaceBrowseConfiguration :=
  {| browsePath :=
       (fun arr => pushed arr (includePath (configuration item))) <$> browsePath b;
     browseCompilerArgs :=
       (fun arr => pushed arr (compilerArgs (configuration item))) <$> browseCompilerArgs b;
     browseCompilerPath := Some (compilerPath (configuration item));
     browseStandard := Some (standard (configuration item)) |}.

(** The identifiers [findIntelliSenseMode] can return. *)
Definition reachableModes : list string :=
  ["msvc-x86"; "msvc-x64"; "gcc-x86"; "gcc-x64"; "clang-x86"; "clang-x64"].

(** An item as the classifier builds them, under the key it is stored
    with. *)
Definition wellKeyed `{Host} (key : string) (item : SourceFileConfigurationItem) : Prop :=
  key = Uri_file_fsPath (uri item) /\
  (exists c, compilerPath (configuration item) = Some (JStr c)) /\
  standard (configuration item) ∈ recognizedStandards /\
  intelliSenseMode (configuration item) ∈ reachableModes.

(** The guard rejects the command. *)
Definition isRejected (cmd : json) : bool :=
  match guard cmd with
  | Normal false => true
  | _ => false
  end.

Section Attribution.
Context `{Host}.

(** The test of lines 274-275 on the file of [item] and a workspace
    folder. *)
Definition attributed (item : SourceFileConfigurationItem) (folder : string) : bool :=
  let relativePath := path_relative (Uri_file_fsPath (uri item)) folder in
  startsWith relativePath ".." || startsWith relativePath ".".

(** The items of the commands of a database that pass the guard and the
    classifier, in the order of the database. *)
Definition validItems (cmds : list json) (platform architecture : string)
  : list SourceFileConfigurationItem :=
  omap (fun cmd => match verdictOf cmd platform architecture with
                   | Valid item => Some item
                   | _ => None
                   end) cmds.

(** The same items under the keys [uri.fsPath] they are stored with. *)
Definition keyedItems (cmds : list json) (platform architecture : string)
  : list (string * SourceFileConfigurationItem) :=
  (fun item => (Uri_file_fsPath (uri item), item)) <$> validItems cmds platform architecture.

(** The items of a database that the fold gives to [folder], when the
    workspace folders are [workspaceFolders]. *)
Definition contributors (workspaceFolders : option (list string)) (folder : string)
    (cmds : list json) (platform architecture : string)
  : list SourceFileConfigurationItem :=
  match workspaceFolders with
  | Some folders =>
      if bool_decide (folder ∈ folders)
      then List.filter (fun item => attributed item folder)
             (validItems cmds platform architecture)
      else []
  | None => []
  end.


(** Any number of rebuilds, with whatever inputs. *)
Inductive rebuilds
  : XMakeCppCustomConfigurationProvider -> XMakeCppCustomConfigurationProvider -> Prop :=
| rebuilds_none p : rebuilds p p
| rebuilds_more p p' workspaceFolders compileCommands platform architecture out :
    rebuilds p p' ->
    rebuilds p
      (this (fst (updateCompileCommands workspaceFolders compileCommands
                    platform architecture {| this := p'; console := out |}))).

End Attribution.

(** The world after the provider of the scenario is rebuilt with the
    scenario's database. *)
Definition scenarioRebuilt : world :=
  fst (@updateCompileCommands posixHost (Some ["/p"]) (JArr [scenarioEntry])
         "linux" "x86_64" freshWorld).

(** ** Strings *)

Lemma list_ascii_of_string_app (s t : string) :
  list_ascii_of_string (s +:+ t) = list_ascii_of_string s ++ list_ascii_of_string t.
Proof. induction s as [|c s IH]; simpl; [done | by rewrite IH]. Qed.

Lemma string_app_cons (c : ascii) (s t : string) :
  String c s +:+ t = String c (s +:+ t).
Proof. reflexivity. Qed.

Lemma string_app_assoc (s t u : string) : (s +:+ t) +:+ u = s +:+ (t +:+ u).
Proof.
  induction s as [|c s IH]; [reflexivity |].
  by rewrite !string_app_cons, IH.
Qed.

Lemma startsWith_app (p t : string) : startsWith (p +:+ t) p = true.
Proof.
  unfold startsWith. induction p as [|c p IH]; simpl.
  - by destruct t.
  - destruct (ascii_dec c c); [exact IH | done].
Qed.

Lemma recognizedStandards_NoDup : NoDup recognizedStandards.
Proof. apply (bool_decide_unpack (NoDup recognizedStandards)). by vm_compute. Qed.

Lemma modeTable_NoDup : NoDup modeTable.
Proof. apply (bool_decide_unpack (NoDup modeTable)). by vm_compute. Qed.

Lemma standardSwitch_recognized (std : string) :
  std ∈ recognizedStandards -> standardSwitch std = std.
Proof.
  unfold recognizedStandards. rewrite !elem_of_cons, elem_of_nil.
  intros Hin. repeat (destruct Hin as [-> | Hin]; [reflexivity |]). done.
Qed.

Lemma standardSwitch_other (std : string) :
  std ∉ recognizedStandards -> standardSwitch std = "c++20".
Proof.
  unfold recognizedStandards. rewrite !not_elem_of_cons.
  intros Hn. unfold standardSwitch.
  repeat match goal with
         | |- context [String.eqb std ?t] =>
             destruct (String.eqb_spec std t) as [E | _];
             [exfalso; intuition congruence |]
         end.
  reflexivity.
Qed.

(** ** The classifier on argument vectors *)

Section ClassifierFacts.
Context `{Host}.

Lemma filterM_strings (cb : json -> completion bool) (keep : string -> bool)
    (l : list string) :
  (forall s, cb (JStr s) = Normal (keep s)) ->
  filterM cb (JStr <$> l) = Normal (JStr <$> List.filter keep l).
Proof.
  intros Hcb. induction l as [|a l IH]; csimpl; [done |].
  rewrite Hcb. csimpl. rewrite IH. csimpl. by destruct (keep a).
Qed.

Lemma mapM_strings {B} (cb : json -> completion B) (f : string -> B)
    (l : list string) :
  (forall s, cb (JStr s) = Normal (f s)) ->
  mapM cb (JStr <$> l) = Normal (f <$> l).
Proof.
  intros Hcb. induction l as [|a l IH]; csimpl; [done |].
  rewrite Hcb. csimpl. by rewrite IH.
Qed.

Lemma findM_strings (cb : json -> completion bool) (keep : string -> bool)
    (l : list string) :
  (forall s, cb (JStr s) = Normal (keep s)) ->
  findM cb (JStr <$> l) = Normal (JStr <$> List.find keep l).
Proof.
  intros Hcb. induction l as [|a l IH]; csimpl; [done |].
  rewrite Hcb. csimpl. by destruct (keep a).
Qed.

Lemma index1_argv (l : list string) (c : string) :
  l !! 1%nat = Some c -> index1 (argv l) = Normal (Some (JStr c)).
Proof. intros Hc. simpl. by rewrite list_lookup_fmap, Hc. Qed.

Lemma isMSVC_argv (l : list string) (c : string) :
  l !! 1%nat = Some c ->
  isMSVC (argv l) = Normal (String.eqb (toLowerCase (path_basename c)) "cl").
Proof. intros Hc. unfold isMSVC. by rewrite (index1_argv l c Hc). Qed.

Lemma findCompiler_argv (l : list string) (c : string) :
  l !! 1%nat = Some c ->
  findCompiler (argv l) = Normal (toLowerCase (path_basename c)).
Proof. intros Hc. unfold findCompiler. by rewrite (index1_argv l c Hc). Qed.

Lemma findIncludePaths_argv (dir : string) (l : list string) (c : string) :
  l !! 1%nat = Some c ->
  findIncludePaths dir (argv l) =
  Normal ((fun inc => let includePath := substring_from 2 inc in
                      if path_isAbsolute includePath then includePath
                      else path_join dir includePath)
          <$> List.filter
                (fun arg => startsWith arg
                   (flavorPrefix (String.eqb (toLowerCase (path_basename c)) "cl") +:+ "I"))
                l).
Proof.
  intros Hc. unfold findIncludePaths. rewrite (isMSVC_argv l c Hc). simpl.
  set (msvc := String.eqb _ "cl").
  rewrite (filterM_strings _ (fun arg => startsWith arg (flavorPrefix msvc +:+ "I")))
    by (intros s; by destruct msvc).
  simpl. by apply mapM_strings.
Qed.

Lemma findDefines_argv (l : list string) (c : string) :
  l !! 1%nat = Some c ->
  findDefines (argv l) =
  Normal (substring_from 2
          <$> List.filter
                (fun arg => startsWith arg
                   (flavorPrefix (String.eqb (toLowerCase (path_basename c)) "cl") +:+ "D"))
                l).
Proof.
  intros Hc. unfold findDefines. rewrite (isMSVC_argv l c Hc). simpl.
  set (msvc := String.eqb _ "cl").
  rewrite (filterM_strings _ (fun arg => startsWith arg (flavorPrefix msvc +:+ "D")))
    by (intros s; by destruct msvc).
  simpl. by apply mapM_strings.
Qed.

Lemma findCompilerArgs_argv (l : list string) (c : string) :
  l !! 1%nat = Some c ->
  findCompilerArgs (argv l) =
  Normal (List.filter (passThrough (String.eqb (toLowerCase (path_basename c)) "cl")) l).
Proof.
  intros Hc. unfold findCompilerArgs. rewrite (isMSVC_argv l c Hc). simpl.
  set (msvc := String.eqb _ "cl").
  rewrite (filterM_strings _ (passThrough msvc)).
  - simpl. f_equal. induction (List.filter _ l) as [|a k IH]; csimpl; [done | by f_equal].
  - intros s. unfold passThrough. simpl.
    destruct msvc; simpl;
      repeat (match goal with |- context [startsWith s ?p] => destruct (startsWith s p) end; simpl; try done).
Qed.

Lemma findStandard_argv (l : list string) (c : string) :
  l !! 1%nat = Some c ->
  findStandard (argv l) =
  Normal (match List.find
                  (fun arg => startsWith arg
                     (flavorPrefix (String.eqb (toLowerCase (path_basename c)) "cl") +:+
                      (if String.eqb (toLowerCase (path_basename c)) "cl" then "std:" else "std=")))
                  l with
          | Some stdArg => standardSwitch (substring_from 5 stdArg)
          | None => "c++20"
          end).
Proof.
  intros Hc. unfold findStandard. rewrite (isMSVC_argv l c Hc). simpl.
  set (msvc := String.eqb _ "cl").
  rewrite (findM_strings _ (fun arg => startsWith arg
             (flavorPrefix msvc +:+ (if msvc then "std:" else "std="))))
    by (intros s; by destruct msvc).
  simpl. by destruct (List.find _ l).
Qed.

End ClassifierFacts.

(** ** The resolvers *)

Lemma length_list_ascii_of_string (s : string) :
  List.length (list_ascii_of_string s) = String.length s.
Proof. induction s as [|c s IH]; simpl; [done | by rewrite IH]. Qed.

Lemma stripSuffix_app (s suf t : string) :
  s +:+ suf = t -> stripSuffix suf t = Some s.
Proof.
  intros <-. unfold stripSuffix.
  rewrite list_ascii_of_string_app, length_app, length_list_ascii_of_string.
  rewrite (length_list_ascii_of_string suf).
  replace (String.length s + String.length suf - String.length suf)%nat
    with (List.length (list_ascii_of_string s))
    by (rewrite length_list_ascii_of_string; lia).
  rewrite drop_app_length, take_app_length, bool_decide_true by done.
  by rewrite string_of_list_ascii_of_string.
Qed.

Ltac switch_on_suffix comp suf :=
  repeat match goal with
         | |- context [String.eqb (comp +:+ suf) ?t] =>
             destruct (String.eqb_spec (comp +:+ suf) t) as [E | ?];
             [apply stripSuffix_app in E; vm_compute in E;
              first [discriminate E | injection E as <-; reflexivity] |]
         end.

Ltac absurd_row :=
  solve [exfalso; match goal with N : _ <> _ |- _ => apply N; reflexivity end].

Lemma modeSwitch_pair (comp arch : string) :
  arch = "x86" \/ arch = "x64" ->
  modeSwitch ((comp +:+ "-") +:+ arch) =
  if bool_decide ((comp, arch) ∈ modeTable) then (comp +:+ "-") +:+ arch else "msvc-x86".
Proof.
  intros [-> | ->]; unfold modeSwitch; rewrite string_app_assoc;
    [change ("-" +:+ "x86") with "-x86" | change ("-" +:+ "x64") with "-x64"].
  - switch_on_suffix comp "-x86".
    rewrite bool_decide_false; [done |].
    unfold modeTable. rewrite !elem_of_cons, elem_of_nil.
    intros Hin.
    repeat (destruct Hin as [Heq | Hin]; [inversion Heq; subst; absurd_row |]).
    done.
  - switch_on_suffix comp "-x64".
    rewrite bool_decide_false; [done |].
    unfold modeTable. rewrite !elem_of_cons, elem_of_nil.
    intros Hin.
    repeat (destruct Hin as [Heq | Hin]; [inversion Heq; subst; absurd_row |]).
    done.
Qed.

Lemma canonicalArch_cases (architecture : string) :
  canonicalArch architecture = "x86" \/ canonicalArch architecture = "x64".
Proof. unfold canonicalArch. destruct (String.eqb architecture "x86"); auto. Qed.

Lemma find_app_skip (keep : string -> bool) (pre rest : list string) :
  Forall (fun a => keep a = false) pre ->
  List.find keep (pre ++ rest) = List.find keep rest.
Proof.
  induction 1 as [|a pre Ha _ IH]; simpl; [done |]. by rewrite Ha.
Qed.

Lemma find_none_all (keep : string -> bool) (l : list string) :
  (forall a, a ∈ l -> keep a = false) -> List.find keep l = None.
Proof.
  induction l as [|a l IH]; simpl; [done |].
  intros Hall. rewrite (Hall a) by left. apply IH. intros b Hb. apply Hall. by right.
Qed.

Lemma filter_sublist {A} (keep : A -> bool) (l : list A) :
  sublist (List.filter keep l) l.
Proof.
  induction l as [|a l IH]; simpl; [done |].
  destruct (keep a); by constructor.
Qed.

Lemma elem_of_List_filter {A} (keep : A -> bool) (l : list A) (x : A) :
  x ∈ List.filter keep l <-> x ∈ l /\ keep x = true.
Proof. rewrite !list_elem_of_In. apply filter_In. Qed.

Section Resolvers.
Context `{Host}.

(** C5.  On an argument vector (its element 1, the compiler path, is
    there): when the first argument that starts with the flavor's
    five-character standard prefix ([/std:] for MSVC, [-std=] otherwise)
    carries a token of the closed set of 20 identifiers, [findStandard]
    returns that token unchanged; with any other token it returns [c++20];
    and when no argument starts with the prefix it returns [c++20]. *)
Theorem findStandard_resolves (l : list string) (c : string) :
  l !! 1%nat = Some c ->
  let msvc := String.eqb (toLowerCase (path_basename c)) "cl" in
  let standardPrefix := if msvc then "/std:" else "-std=" in
  String.length standardPrefix = 5%nat /\
  (length recognizedStandards = 20%nat /\ NoDup recognizedStandards) /\
  (forall pre token post,
     l = pre ++ (standardPrefix +:+ token) :: post ->
     Forall (fun arg => startsWith arg standardPrefix = false) pre ->
     (token ∈ recognizedStandards -> findStandard (argv l) = Normal token) /\
     (token ∉ recognizedStandards -> findStandard (argv l) = Normal "c++20")) /\
  ((forall arg, arg ∈ l -> startsWith arg standardPrefix = false) ->
   findStandard (argv l) = Normal "c++20").
Proof.
  intros Hc msvc standardPrefix.
  assert (Hprefix : flavorPrefix msvc +:+ (if msvc then "std:" else "std=") = standardPrefix)
    by (subst standardPrefix; by destruct msvc).
  pose proof (findStandard_argv l c Hc) as Hfind. cbv zeta in Hfind.
  fold msvc in Hfind. rewrite Hprefix in Hfind.
  split; [subst standardPrefix; by destruct msvc |].
  split; [split; [reflexivity | apply recognizedStandards_NoDup] |].
  split.
  - intros pre token post Hl Hpre.
    assert (Hstd : List.find (fun arg => startsWith arg standardPrefix) l
                   = Some (standardPrefix +:+ token)).
    { rewrite Hl, find_app_skip by done. simpl. by rewrite startsWith_app. }
    assert (Htok : substring_from 5 (standardPrefix +:+ token) = token)
      by (subst standardPrefix; by destruct msvc).
    rewrite Hstd, Htok in Hfind. rewrite Hfind.
    split; intros Htoken.
    + by rewrite standardSwitch_recognized.
    + by rewrite standardSwitch_other.
  - intros Hnone. by rewrite Hfind, find_none_all.
Qed.

(** C7.  On an argument vector the pass-through arguments are exactly the
    arguments that start with the flavor prefix ([/] when the lowercased
    base name of element 1 is [cl], [-] otherwise) and start with none of
    prefix+[I], prefix+[D], prefix+[o], prefix+[std], in the order of the
    vector; an argument that starts with prefix+[std] is left out whatever
    follows. *)
Theorem findCompilerArgs_passThrough (l : list string) (c : string) :
  l !! 1%nat = Some c ->
  let p := if String.eqb (toLowerCase (path_basename c)) "cl" then "/" else "-" in
  exists kept,
    findCompilerArgs (argv l) = Normal kept /\
    kept = List.filter
             (fun arg => startsWith arg p
                         && negb (startsWith arg (p +:+ "I"))
                         && negb (startsWith arg (p +:+ "D"))
                         && negb (startsWith arg (p +:+ "o"))
                         && negb (startsWith arg (p +:+ "std"))) l /\
    sublist kept l /\
    (forall arg, arg ∈ kept <->
       arg ∈ l /\ startsWith arg p = true /\
       startsWith arg (p +:+ "I") = false /\ startsWith arg (p +:+ "D") = false /\
       startsWith arg (p +:+ "o") = false /\ startsWith arg (p +:+ "std") = false) /\
    (forall rest, (p +:+ "std" +:+ rest) ∉ kept).
Proof.
  intros Hc p. eexists. split; [by apply findCompilerArgs_argv |].
  set (msvc := String.eqb _ "cl").
  assert (Hp : flavorPrefix msvc = p) by done.
  unfold passThrough. rewrite Hp.
  split; [done |]. split; [apply filter_sublist |].
  assert (Hin : forall arg,
    arg ∈ List.filter
            (fun arg => startsWith arg p
                        && negb (startsWith arg (p +:+ "I"))
                        && negb (startsWith arg (p +:+ "D"))
                        && negb (startsWith arg (p +:+ "o"))
                        && negb (startsWith arg (p +:+ "std"))) l <->
    arg ∈ l /\ startsWith arg p = true /\
    startsWith arg (p +:+ "I") = false /\ startsWith arg (p +:+ "D") = false /\
    startsWith arg (p +:+ "o") = false /\ startsWith arg (p +:+ "std") = false).
  { intros arg. rewrite elem_of_List_filter, !andb_true_iff, !negb_true_iff. tauto. }
  split; [exact Hin |].
  intros rest Hrest. apply Hin in Hrest as (_ & _ & _ & _ & _ & Hstd).
  rewrite <- string_app_assoc, startsWith_app in Hstd. done.
Qed.

(** C8.  Every architecture other than exactly [x86] is looked up as
    [x64]: the result is the one for [x64].  A (compiler, canonical
    architecture) pair that is no row of the 12-row table gives
    [msvc-x86]; a pair that is a row gives that row's identifier. *)
Theorem findIntelliSenseMode_canonical (args : option json) (platform : string) :
  (forall architecture, architecture <> "x86" ->
     canonicalArch architecture = "x64" /\
     findIntelliSenseMode args platform architecture =
     findIntelliSenseMode args platform "x64") /\
  (length modeTable = 12%nat /\ NoDup modeTable) /\
  (forall architecture comp,
     findCompiler args = Normal comp ->
     ((comp, canonicalArch architecture) ∉ modeTable ->
      findIntelliSenseMode args platform architecture = Normal "msvc-x86") /\
     ((comp, canonicalArch architecture) ∈ modeTable ->
      findIntelliSenseMode args platform architecture =
      Normal ((comp +:+ "-") +:+ canonicalArch architecture))).
Proof.
  split; [| split; [split; [reflexivity | apply modeTable_NoDup] |]].
  - intros architecture Hne. unfold findIntelliSenseMode, canonicalArch.
    apply String.eqb_neq in Hne. by rewrite Hne.
  - intros architecture comp Hcomp.
    unfold findIntelliSenseMode. rewrite Hcomp. simpl.
    fold (canonicalArch architecture).
    rewrite (modeSwitch_pair comp _ (canonicalArch_cases architecture)).
    split; intros Hrow.
    + by rewrite bool_decide_false.
    + by rewrite bool_decide_true.
Qed.

(** C10.  For an entry whose compiler base name lowercases to [cl]
    (so that the flavor is MSVC) [findIntelliSenseMode] returns [msvc-x86]
    whatever the architecture and the platform; a mode other than that
    default is only returned when the lowercased base name is [msvc],
    [gcc] or [clang]. *)
Theorem findIntelliSenseMode_cl (l : list string) (c platform architecture : string) :
  l !! 1%nat = Some c ->
  (toLowerCase (path_basename c) = "cl" ->
   isMSVC (argv l) = Normal true /\
   findIntelliSenseMode (argv l) platform architecture = Normal "msvc-x86") /\
  (forall mode,
     findIntelliSenseMode (argv l) platform architecture = Normal mode ->
     mode <> "msvc-x86" ->
     toLowerCase (path_basename c) ∈ ["msvc"; "gcc"; "clang"]).
Proof.
  intros Hc.
  assert (Hmode : findIntelliSenseMode (argv l) platform architecture =
                  Normal (modeSwitch ((toLowerCase (path_basename c) +:+ "-") +:+
                                      canonicalArch architecture))).
  { unfold findIntelliSenseMode. by rewrite (findCompiler_argv l c Hc). }
  rewrite Hmode, (modeSwitch_pair _ _ (canonicalArch_cases architecture)).
  split.
  - intros Hcl. rewrite (isMSVC_argv l c Hc), Hcl. split; [done |].
    destruct (canonicalArch_cases architecture) as [-> | ->]; reflexivity.
  - intros mode [= <-] Hne. case_bool_decide as Hrow; [| done].
    unfold modeTable in Hrow. rewrite !elem_of_cons, elem_of_nil in Hrow.
    rewrite !elem_of_cons.
    repeat (destruct Hrow as [[= -> _] | Hrow]; [tauto |]). done.
Qed.

End Resolvers.

(** ** Commands the guard rejects, and commands it lets through *)

Section Guard.
Context `{Host}.

Lemma guard_rejects workspaceFolders platform architecture w cmd :
  guard cmd = Normal false ->
  processCommand workspaceFolders platform architecture w cmd =
  ({| this := this w; console := console w ++ [diagnostic cmd] |}, Normal ()).
Proof.
  unfold guard, processCommand, diagnostic.
  destruct (getProp cmd "directory") as [[[]|]|]; try done;
    destruct (getProp cmd "file") as [[[]|]|]; try done;
    destruct (getProp cmd "arguments") as [arguments|]; try done.
  simpl. by intros [= ->].
Qed.


(** An array with no element 1 is not an argument vector: the classifier
    throws on it. *)
Lemma makeItem_short_arguments directory file platform architecture (l : list string) :
  l !! 1%nat = None ->
  makeItem directory file (argv l) platform architecture = Throw TypeError.
Proof.
  intros Hshort. unfold makeItem, findIncludePaths, isMSVC. simpl.
  by rewrite list_lookup_fmap, Hshort.
Qed.

End Guard.

(** ** The fold step *)

Lemma pushIfNotExist_undefined (from : list string) :
  pushIfNotExist None from =
  match from with [] => Normal None | _ :: _ => Throw TypeError end.
Proof. by destruct from. Qed.

(** On an array the step never throws: it appends, in the order of [from],
    the strings of [from] that are not yet there, each once. *)
Lemma pushIfNotExist_appends (from arr : list string) :
  exists added,
    pushIfNotExist (Some arr) from = Normal (Some (arr ++ added)) /\
    NoDup added /\
    sublist added from /\
    (forall x, x ∈ added <-> x ∈ from /\ x ∉ arr).
Proof.
  revert arr. induction from as [|incoming from IH]; intros arr; simpl.
  - exists []. rewrite app_nil_r.
    split; [done |]. split; [constructor |]. split; [done |].
    intros x. rewrite elem_of_nil. tauto.
  - case_bool_decide as Hin.
    + destruct (IH arr) as (added & -> & Hnd & Hsub & Hel).
      exists added. split; [done |]. split; [done |].
      split; [by apply sublist_cons |].
      intros x. rewrite Hel, elem_of_cons. split; [tauto |].
      intros [[-> | Hx] Hnot]; tauto.
    + destruct (IH (arr ++ [incoming])) as (added & -> & Hnd & Hsub & Hel).
      exists (incoming :: added). rewrite <- app_assoc. simpl.
      split; [done |]. split.
      { constructor; [| done]. intros Hx. apply Hel in Hx as [_ Hx].
        apply Hx, elem_of_app. right. by left. }
      split; [by apply sublist_skip |].
      intros x. rewrite !elem_of_cons, Hel, elem_of_app, list_elem_of_singleton.
      destruct (decide (x = incoming)) as [-> | Hne]; tauto.
Qed.

Lemma pushIfNotExist_NoDup (from arr : list string) (out : option (list string)) :
  NoDup arr ->
  pushIfNotExist (Some arr) from = Normal out ->
  exists added, out = Some (arr ++ added) /\ NoDup (arr ++ added).
Proof.
  intros Hnd Hpush.
  destruct (pushIfNotExist_appends from arr) as (added & Heq & Hnda & _ & Hel).
  rewrite Heq in Hpush. injection Hpush as <-.
  exists added. split; [done |].
  apply NoDup_app. split; [done |]. split; [| done].
  intros x Hx Hxa. by apply Hel in Hxa as [_ Hxa].
Qed.

(** Pushing strings that are all there changes nothing. *)
Lemma pushIfNotExist_absorbed (from arr : list string) :
  (forall x, x ∈ from -> x ∈ arr) ->
  pushIfNotExist (Some arr) from = Normal (Some arr).
Proof.
  induction from as [|incoming from IH]; intros Hall; simpl; [done |].
  rewrite bool_decide_true by (apply Hall; by left).
  apply IH. intros x Hx. apply Hall. by right.
Qed.

(** After a push all the pushed strings are there. *)
Lemma pushIfNotExist_covers (from arr out : list string) :
  pushIfNotExist (Some arr) from = Normal (Some out) ->
  forall x, x ∈ from -> x ∈ out.
Proof.
  intros Hpush x Hx.
  destruct (pushIfNotExist_appends from arr) as (added & Heq & _ & _ & Hel).
  rewrite Heq in Hpush. injection Hpush as <-.
  apply elem_of_app. destruct (decide (x ∈ arr)); [by left |].
  right. by apply Hel.
Qed.

Lemma Map_forEach_unchanged {V L} (cb : V -> L) (m : gmap string V) :
  Map_forEach cb m = m.
Proof.
  unfold Map_forEach.
  by apply (map_fold_weak_ind (fun r _ => r = m)).
Qed.

(** ** Loops *)

Lemma forEach_invariant {S A} (P : S -> Prop) (cb : S -> A -> S * completion unit)
    (l : list A) (s : S) :
  (forall s x, P s -> P (fst (cb s x))) ->
  P s -> P (fst (forEach cb l s)).
Proof.
  intros Hcb. revert s. induction l as [|x l IH]; intros s Hs; simpl; [done |].
  specialize (Hcb s x Hs). destruct (cb s x) as [s' [[]|e]]; simpl in *; auto.
Qed.

Section Absorbing.
Context {X : Type} (ext : X -> X -> Prop) (R : X -> X -> X -> Prop).
Hypothesis ext_refl : forall s, ext s s.
Hypothesis ext_trans : forall s1 s2 s3, ext s1 s2 -> ext s2 s3 -> ext s1 s3.

Lemma forEach_ext {A} (cb : X -> A -> X * completion unit) (l : list A) (s : X) :
  (forall s x, ext s (fst (cb s x))) -> ext s (fst (forEach cb l s)).
Proof.
  intros Hcb. revert s. induction l as [|x l IH]; intros s; simpl; [done |].
  specialize (Hcb s x). destruct (cb s x) as [s' [[]|e]]; simpl in *; [| done].
  by eapply ext_trans.
Qed.

Lemma forEach_absorbing {A} (cb : X -> A -> X * completion unit) :
  absorbing ext R cb -> absorbing ext R (fun s l => forEach cb l s).
Proof.
  intros (Hext & Hnormal & Hthrow). split; [| split].
  - intros s l. by apply forEach_ext.
  - intros s t f l. revert s t.
    induction l as [|x l IH]; intros s t s' Hrun Hf HR; simpl in *.
    + injection Hrun as <-. by exists t.
    + destruct (cb s x) as [s1 [[]|e]] eqn:Hcb; [| done].
      assert (Hs1 : ext s1 f).
      { eapply ext_trans; [| exact Hf].
        pose proof (forEach_ext cb l s1 Hext) as Hl. by rewrite Hrun in Hl. }
      destruct (Hnormal s t f x s1 Hcb Hs1 HR) as (t1 & -> & HR1).
      by apply (IH s1 t1 s').
  - intros s t l. revert s t.
    induction l as [|x l IH]; intros s t s' e Hrun HR; simpl in *; [done |].
    destruct (cb s x) as [s1 [[]|e1]] eqn:Hcb.
    + assert (Hs1 : ext s1 s').
      { pose proof (forEach_ext cb l s1 Hext) as Hl. by rewrite Hrun in Hl. }
      destruct (Hnormal s t s' x s1 Hcb Hs1 HR) as (t1 & -> & HR1).
      by apply (IH s1 t1 s' e).
    + injection Hrun as <- <-.
      destruct (Hthrow s t x s1 e1 Hcb HR) as (t1 & -> & HR1).
      by exists t1.
Qed.

End Absorbing.

(** ** Rebuilding over what an earlier rebuild left *)

Lemma extends_refl (m : gmap string (list string)) : extends m m.
Proof. intros f. destruct (m !! f) as [l|] eqn:E; [| done]. exists []. by rewrite app_nil_r. Qed.

Lemma extends_trans (m1 m2 m3 : gmap string (list string)) :
  extends m1 m2 -> extends m2 m3 -> extends m1 m3.
Proof.
  intros H12 H23 f. specialize (H12 f). specialize (H23 f).
  destruct (m1 !! f) as [l|].
  - destruct H12 as [l' E]. rewrite E in H23. destruct H23 as [l'' E'].
    exists (l' ++ l''). by rewrite app_assoc.
  - by rewrite H12 in H23.
Qed.

Lemma grows_refl s : grows s s.
Proof. split; apply extends_refl. Qed.

Lemma grows_trans s1 s2 s3 : grows s1 s2 -> grows s2 s3 -> grows s1 s3.
Proof. intros [? ?] [? ?]. split; by eapply extends_trans. Qed.

Lemma lastWrites_insert {V} (ms mt mf : gmap string V) (k : string) (v : V) :
  lastWrites ms mt mf -> lastWrites (<[k := v]> ms) (<[k := v]> mt) mf.
Proof.
  intros Hl f. destruct (decide (k = f)) as [-> | Hne].
  - right. by rewrite !lookup_insert_eq.
  - rewrite !lookup_insert_ne by done. apply Hl.
Qed.

Lemma lastWrites_done {V} (ms mt : gmap string V) : lastWrites ms mt ms -> mt = ms.
Proof. intros Hl. apply map_eq. intros f. by destruct (Hl f). Qed.

Lemma push_writeBack_extends (m : gmap string (list string)) (f : string)
    (from : list string) (out : option (list string)) :
  pushIfNotExist (m !! f) from = Normal out -> extends m (writeBack f out m).
Proof.
  intros Hpush. destruct (m !! f) as [l|] eqn:E.
  - destruct (pushIfNotExist_appends from l) as (added & Heq & _).
    rewrite Heq in Hpush. injection Hpush as <-. simpl.
    intros g. destruct (decide (f = g)) as [<- | Hne].
    + rewrite E, lookup_insert_eq. by exists added.
    + rewrite lookup_insert_ne by done. apply extends_refl.
  - rewrite pushIfNotExist_undefined in Hpush. destruct from; [| done].
    injection Hpush as <-. apply extends_refl.
Qed.

Lemma push_writeBack_absorbed (m mf : gmap string (list string)) (f : string)
    (from : list string) (out : option (list string)) :
  pushIfNotExist (m !! f) from = Normal out ->
  extends (writeBack f out m) mf ->
  pushIfNotExist (mf !! f) from = Normal (mf !! f) /\
  writeBack f (mf !! f) mf = mf.
Proof.
  intros Hpush Hext. specialize (Hext f). destruct (m !! f) as [l|] eqn:E.
  - destruct out as [o|].
    2:{ destruct (pushIfNotExist_appends from l) as (? & Heq & _). congruence. }
    simpl in Hext. rewrite lookup_insert_eq in Hext. destruct Hext as [l' El'].
    rewrite El'. simpl. split; [| by apply insert_id].
    apply pushIfNotExist_absorbed. intros x Hx.
    apply elem_of_app. left. by eapply pushIfNotExist_covers.
  - rewrite pushIfNotExist_undefined in Hpush. destruct from; [| done].
    injection Hpush as <-. simpl in Hext. rewrite E in Hext. by rewrite Hext.
Qed.

Section Rebuild.
Context `{Host}.

Lemma foldFolder_grows item s folder : grows s (fst (foldFolder item s folder)).
Proof.
  unfold foldFolder.
  destruct (startsWith _ ".." || startsWith _ "."); [| apply grows_refl].
  destruct (pushIfNotExist (_ !! folder) (includePath _)) as [paths|e] eqn:Hb;
    [| apply grows_refl].
  destruct (pushIfNotExist (_ !! folder) (compilerArgs _)) as [args|e] eqn:Hc; simpl.
  - split; simpl; by eapply push_writeBack_extends.
  - split; simpl; [by eapply push_writeBack_extends | apply extends_refl].
Qed.

Lemma foldFolder_absorbing item : absorbing grows rerun (foldFolder item).
Proof.
  split; [intros s x; apply foldFolder_grows | split].
  - intros s t f folder s' Hrun [Hgb Hgc] (Hfiles & Hb & Hc & Hcp & Hstd).
    unfold foldFolder in *.
    destruct (startsWith _ ".." || startsWith _ ".").
    2:{ injection Hrun as <-. by exists t. }
    destruct (pushIfNotExist (_workspaceBrowsePaths s !! folder) _)
      as [paths|e] eqn:Epaths; [| done].
    destruct (pushIfNotExist (_workspaceCompilerArgs s !! folder) _)
      as [args|e] eqn:Eargs; [| done].
    injection Hrun as <-. simpl in *.
    destruct (push_writeBack_absorbed _ _ _ _ _ Epaths Hgb) as [Hpb Hwb].
    destruct (push_writeBack_absorbed _ _ _ _ _ Eargs Hgc) as [Hpc Hwc].
    rewrite Hb, Hc, Hpb, Hpc, Hwb, Hwc.
    eexists. split; [reflexivity |].
    repeat split; simpl; try done; by apply lastWrites_insert.
  - intros s t folder s' e Hrun (Hfiles & Hb & Hc & Hcp & Hstd).
    unfold foldFolder in *.
    destruct (startsWith _ ".." || startsWith _ "."); [| done].
    destruct (pushIfNotExist (_workspaceBrowsePaths s !! folder) _)
      as [paths|e1] eqn:Epaths.
    + destruct (pushIfNotExist (_workspaceCompilerArgs s !! folder) _)
        as [args|e2] eqn:Eargs; [done |].
      injection Hrun as <- <-. simpl in *.
      destruct (push_writeBack_absorbed _ _ _ _ _ Epaths (extends_refl _)) as [Hpb Hwb].
      rewrite Hb, Hc, Hpb, Hwb, Eargs.
      eexists. split; [reflexivity |].
      repeat split; simpl; done.
    + injection Hrun as <- <-.
      rewrite Hb, Hc, Epaths.
      eexists. split; [reflexivity |]. repeat split; try done.
Qed.

Lemma processCommand_verdict workspaceFolders platform architecture w cmd :
  processCommand workspaceFolders platform architecture w cmd =
  applyVerdict workspaceFolders cmd (verdictOf cmd platform architecture) w.
Proof.
  unfold processCommand, verdictOf.
  destruct (getProp cmd "directory") as [[[]|]|]; try done;
    destruct (getProp cmd "file") as [[[]|]|]; try done;
    destruct (getProp cmd "arguments") as [arguments|]; try done.
  destruct (String.eqb (typeof arguments) "object"); [| done].
  by destruct (makeItem _ _ _ _ _).
Qed.

Lemma rerun_storeItem item s t f :
  rerun s t f -> rerun (storeItem item s) (storeItem item t) f.
Proof.
  intros (Hfiles & Hb & Hc & Hcp & Hstd).
  repeat split; simpl; try done. by rewrite Hfiles.
Qed.

Lemma rerun_storeItem_thrown item s t :
  rerun s t (storeItem item s) ->
  rerun (storeItem item s) (storeItem item t) (storeItem item s).
Proof.
  intros (Hfiles & Hb & Hc & Hcp & Hstd).
  repeat split; simpl in *; try done. by rewrite Hfiles.
Qed.

Lemma applyVerdict_absorbing workspaceFolders cmd v :
  absorbing grows_w rerun_w (fun w (_ : unit) => applyVerdict workspaceFolders cmd v w).
Proof.
  destruct v as [|e|item].
  - split; [| split].
    + intros s _. apply grows_refl.
    + intros s t f _ s' [= <-] Hf HR. eexists. split; [reflexivity |]. exact HR.
    + intros s t _ s' e. simpl. intros [=].
  - split; [| split].
    + intros s _. apply grows_refl.
    + intros s t f _ s'. simpl. intros [=].
    + intros s t _ s' e' [= <- <-] HR. by exists t.
  - destruct (forEach_absorbing grows rerun grows_refl grows_trans _
                (foldFolder_absorbing item)) as (Hext & Hnormal & Hthrow).
    destruct workspaceFolders as [folders|]; simpl.
    + split; [| split].
      * intros s _. specialize (Hext (storeItem item (this s)) folders).
        destruct (forEach _ folders _) as [p' r]. exact Hext.
      * intros s t f _ s' Hrun Hf HR.
        destruct (forEach _ folders (storeItem item (this s))) as [p' r] eqn:Hloop.
        injection Hrun as <- ->.
        destruct (Hnormal _ (storeItem item (this t)) (this f) folders p' Hloop Hf)
          as (t' & -> & HR'); [by apply rerun_storeItem |].
        eexists. split; [reflexivity |]. exact HR'.
      * intros s t _ s' e Hrun HR.
        destruct (forEach _ folders (storeItem item (this s))) as [p' r] eqn:Hloop.
        injection Hrun as <- ->.
        destruct (Hthrow _ (storeItem item (this t)) folders p' e Hloop)
          as (t' & -> & HR').
        { destruct HR as (Hfiles & Hb & Hc & Hcp & Hstd).
          repeat split; simpl in *; try done. by rewrite Hfiles. }
        eexists. split; [reflexivity |]. exact HR'.
    + split; [| split].
      * intros s _. split; apply extends_refl.
      * intros s t f _ s' [=].
      * intros s t _ s' e [= <- <-] HR.
        eexists. split; [reflexivity |]. by apply rerun_storeItem_thrown.
Qed.

Lemma processCommand_absorbing workspaceFolders platform architecture :
  absorbing grows_w rerun_w (processCommand workspaceFolders platform architecture).
Proof.
  split; [| split].
  - intros s cmd. rewrite processCommand_verdict.
    destruct (applyVerdict_absorbing workspaceFolders cmd
                (verdictOf cmd platform architecture)) as (Hext & _).
    exact (Hext s tt).
  - intros s t f cmd s'. rewrite !processCommand_verdict.
    destruct (applyVerdict_absorbing workspaceFolders cmd
                (verdictOf cmd platform architecture)) as (_ & Hnormal & _).
    exact (Hnormal s t f tt s').
  - intros s t cmd s' e. rewrite !processCommand_verdict.
    destruct (applyVerdict_absorbing workspaceFolders cmd
                (verdictOf cmd platform architecture)) as (_ & _ & Hthrow).
    exact (Hthrow s t tt s' e).
Qed.

Lemma updateCompileCommands_unfold workspaceFolders compileCommands
    platform architecture w :
  updateCompileCommands workspaceFolders compileCommands platform architecture w =
  let w0 := {| this := cleared (this w); console := console w |} in
  match compileCommands with
  | JArr cmds => forEach (processCommand workspaceFolders platform architecture) cmds w0
  | _ => (w0, Throw TypeError)
  end.
Proof. unfold updateCompileCommands, cleared. by rewrite !Map_forEach_unchanged. Qed.

Lemma rerun_done s t : rerun s t s -> t = s.
Proof.
  intros (Hfiles & Hb & Hc & Hcp & Hstd).
  apply lastWrites_done in Hcp, Hstd.
  destruct s, t; simpl in *; by subst.
Qed.

(** What a folder's arrays held before a rebuild they hold after it, in
    front of what the rebuild added. *)
Lemma updateCompileCommands_grows workspaceFolders compileCommands
    platform architecture w :
  grows (this w)
    (this (fst (updateCompileCommands workspaceFolders compileCommands
                  platform architecture w))).
Proof.
  rewrite updateCompileCommands_unfold. cbv zeta.
  destruct compileCommands as [| | | |cmds|]; try (split; apply extends_refl).
  apply (forEach_ext grows_w (fun s => grows_refl (this s))
           (fun s1 s2 s3 => grows_trans (this s1) (this s2) (this s3))
           (processCommand workspaceFolders platform architecture) cmds
           {| this := cleared (this w); console := console w |}).
  apply processCommand_absorbing.
Qed.

(** C4.  Rebuilding a second time with the same inputs (workspace
    folders, database, platform, architecture) leaves the provider, the
    per-file map and the four per-folder maps, as the first rebuild left
    it, and ends as the first one did (normally, or with the same
    error). *)
Theorem updateCompileCommands_idempotent
    (workspaceFolders : option (list string)) (compileCommands : json)
    (platform architecture : string) (w : world) :
  let once := updateCompileCommands workspaceFolders compileCommands
                platform architecture w in
  let twice := updateCompileCommands workspaceFolders compileCommands
                 platform architecture (fst once) in
  this (fst twice) = this (fst once) /\ snd twice = snd once.
Proof.
  cbv zeta. rewrite !updateCompileCommands_unfold. cbv zeta.
  destruct compileCommands as [| | | |cmds|]; try done.
  destruct (forEach_absorbing grows_w rerun_w (fun s => grows_refl (this s))
              (fun s1 s2 s3 => grows_trans (this s1) (this s2) (this s3)) _
              (processCommand_absorbing workspaceFolders platform architecture))
    as (_ & Hnormal & Hthrow).
  set (w0 := {| this := cleared (this w); console := console w |}).
  destruct (forEach _ cmds w0) as [f r] eqn:Hrun. simpl.
  set (t0 := {| this := cleared (this f); console := console f |}).
  assert (HR : rerun_w w0 t0 f).
  { repeat split; simpl; try done; intros g; by left. }
  destruct r as [[]|e].
  - destruct (Hnormal w0 t0 f cmds f Hrun (grows_refl _) HR) as (t' & -> & HR').
    simpl. split; [| done]. by apply rerun_done.
  - destruct (Hthrow w0 t0 cmds f e Hrun HR) as (t' & -> & HR').
    simpl. split; [| done]. by apply rerun_done.
Qed.

End Rebuild.

(** ** The aggregates hold no string twice *)

Lemma push_writeBack_NoDup (m : gmap string (list string)) (f : string)
    (from : list string) (out : option (list string)) :
  (forall g l, m !! g = Some l -> NoDup l) ->
  pushIfNotExist (m !! f) from = Normal out ->
  forall g l, writeBack f out m !! g = Some l -> NoDup l.
Proof.
  intros Hm Hpush g l. destruct (m !! f) as [arr|] eqn:E.
  - destruct (pushIfNotExist_NoDup from arr out (Hm f arr E) Hpush)
      as (added & -> & Hnd).
    simpl. destruct (decide (f = g)) as [<- | Hne].
    + rewrite lookup_insert_eq. by intros [= <-].
    + rewrite lookup_insert_ne by done. apply Hm.
  - rewrite pushIfNotExist_undefined in Hpush. destruct from; [| done].
    injection Hpush as <-. apply Hm.
Qed.

Section Invariant.
Context `{Host}.

Lemma foldFolder_NoDup item p folder :
  aggregatesNoDup p -> aggregatesNoDup (fst (foldFolder item p folder)).
Proof.
  intros Hp. unfold foldFolder.
  destruct (startsWith _ ".." || startsWith _ "."); [| done].
  destruct (pushIfNotExist (_ !! folder) (includePath _)) as [paths|e] eqn:Hb; [| done].
  assert (Hb' : forall g l, writeBack folder paths (_workspaceBrowsePaths p) !! g = Some l
                            -> NoDup l).
  { eapply push_writeBack_NoDup; [| exact Hb]. intros g l. apply (Hp g). }
  destruct (pushIfNotExist (_ !! folder) (compilerArgs _)) as [args|e] eqn:Hc; simpl.
  - intros g. split; simpl; [apply Hb' |].
    eapply push_writeBack_NoDup; [| exact Hc]. intros g' l. apply (Hp g').
  - intros g. split; simpl; [apply Hb' | apply (Hp g)].
Qed.

Lemma processCommand_NoDup workspaceFolders platform architecture w cmd :
  aggregatesNoDup (this w) ->
  aggregatesNoDup
    (this (fst (processCommand workspaceFolders platform architecture w cmd))).
Proof.
  intros Hw. rewrite processCommand_verdict.
  destruct (verdictOf cmd platform architecture) as [|e|item]; simpl; try done.
  destruct workspaceFolders as [folders|]; [| done].
  pose proof (forEach_invariant aggregatesNoDup (foldFolder item) folders
                (storeItem item (this w)) (foldFolder_NoDup item)) as Hloop.
  destruct (forEach _ folders _) as [p' r]. simpl in *. by apply Hloop.
Qed.

Lemma updateCompileCommands_NoDup workspaceFolders compileCommands
    platform architecture w :
  aggregatesNoDup (this w) ->
  aggregatesNoDup
    (this (fst (updateCompileCommands workspaceFolders compileCommands
                  platform architecture w))).
Proof.
  intros Hw. rewrite updateCompileCommands_unfold. cbv zeta.
  destruct compileCommands as [| | | |cmds|]; try done.
  apply (forEach_invariant (fun w => aggregatesNoDup (this w))); [| done].
  intros s cmd. apply processCommand_NoDup.
Qed.

Lemma constructor_lookup (folders : list string)
    (p : XMakeCppCustomConfigurationProvider) (folder : string) :
  constructor (Some folders) = Normal p ->
  _workspaceBrowsePaths p !! folder = (if decide (folder ∈ folders) then Some [] else None) /\
  _workspaceCompilerArgs p !! folder = (if decide (folder ∈ folders) then Some [] else None).
Proof.
  intros [= <-].
  set (step := fun (p : XMakeCppCustomConfigurationProvider) (f : string) => _).
  assert (Hgen : forall fs p0,
    _workspaceBrowsePaths (fold_left step fs p0) !! folder =
      (if decide (folder ∈ fs) then Some [] else _workspaceBrowsePaths p0 !! folder) /\
    _workspaceCompilerArgs (fold_left step fs p0) !! folder =
      (if decide (folder ∈ fs) then Some [] else _workspaceCompilerArgs p0 !! folder)).
  { induction fs as [|f fs IH]; intros p0; cbn [fold_left].
    - rewrite !decide_False by apply not_elem_of_nil. done.
    - destruct (IH (step p0 f)) as [-> ->]. subst step. cbn beta iota delta [_workspaceBrowsePaths _workspaceCompilerArgs].
      destruct (decide (folder ∈ fs)) as [Hin | Hnin].
      + rewrite !decide_True by (by right). done.
      + destruct (decide (folder = f)) as [-> | Hne].
        * rewrite !decide_True by (by left). by rewrite !lookup_insert_eq.
        * rewrite !decide_False by (rewrite elem_of_cons; tauto).
          by rewrite !lookup_insert_ne. }
  destruct (Hgen folders {| _sourceFileConfigurations := ∅; _workspaceBrowsePaths := ∅;
                            _workspaceCompilerArgs := ∅; _workspaceCompiler := ∅;
                            _workspaceStandard := ∅ |}) as [-> ->].
  simpl. by rewrite !lookup_empty.
Qed.

Lemma constructor_NoDup workspaceFolders p :
  constructor workspaceFolders = Normal p -> aggregatesNoDup p.
Proof.
  destruct workspaceFolders as [folders|]; [| done].
  intros Hp folder. destruct (constructor_lookup folders p folder Hp) as [-> ->].
  destruct (decide (folder ∈ folders)); split; intros l [= <-]; constructor.
Qed.

(** C9.  The fold step, on an array, appends strings of [from] that the
    array does not hold, each once, and leaves the strings it held in
    place; the constructor gives every workspace folder two empty arrays;
    so in every provider there can be, constructed and rebuilt any number
    of times, no folder's browse-path array and no folder's compiler-argument
    array holds a string twice. *)
Theorem aggregates_never_duplicate :
  (forall arr from,
     exists added,
       pushIfNotExist (Some arr) from = Normal (Some (arr ++ added)) /\
       (forall x, x ∈ added -> x ∈ from /\ x ∉ arr) /\
       NoDup added /\
       (NoDup arr -> NoDup (arr ++ added))) /\
  (forall folders p folder,
     constructor (Some folders) = Normal p -> folder ∈ folders ->
     _workspaceBrowsePaths p !! folder = Some [] /\
     _workspaceCompilerArgs p !! folder = Some []) /\
  (forall p workspaceFolders compileCommands platform architecture out,
     aggregatesNoDup p ->
     aggregatesNoDup
       (this (fst (updateCompileCommands workspaceFolders compileCommands
                     platform architecture {| this := p; console := out |})))) /\
  (forall p, reachable p ->
     forall folder,
       (forall l, _workspaceBrowsePaths p !! folder = Some l -> NoDup l) /\
       (forall l, _workspaceCompilerArgs p !! folder = Some l -> NoDup l)).
Proof.
  split; [| split; [| split]].
  - intros arr from.
    destruct (pushIfNotExist_appends from arr) as (added & Heq & Hnd & _ & Hel).
    exists added. split; [done |]. split; [by intros x ?%Hel |]. split; [done |].
    intros Harr. apply NoDup_app. split; [done |]. split; [| done].
    intros x Hx Hxa. by apply Hel in Hxa as [_ Hxa].
  - intros folders p folder Hp Hin.
    destruct (constructor_lookup folders p folder Hp) as [-> ->].
    by rewrite decide_True.
  - intros p workspaceFolders compileCommands platform architecture out Hp.
    by apply updateCompileCommands_NoDup.
  - induction 1 as [workspaceFolders p Hp | p ? ? ? ? ? _ IH].
    + by eapply constructor_NoDup.
    + by apply updateCompileCommands_NoDup.
Qed.

End Invariant.

(** ** The per-file map after a rebuild *)

Section Files.
Context `{Host}.

Lemma foldFolder_files item p folder :
  _sourceFileConfigurations (fst (foldFolder item p folder)) =
  _sourceFileConfigurations p.
Proof.
  unfold foldFolder.
  destruct (startsWith _ ".." || startsWith _ "."); [| done].
  destruct (pushIfNotExist (_ !! folder) (includePath _)); [| done].
  by destruct (pushIfNotExist (_ !! folder) (compilerArgs _)).
Qed.

Lemma applyVerdict_Valid_files workspaceFolders cmd item w :
  _sourceFileConfigurations (this (fst (applyVerdict workspaceFolders cmd (Valid item) w))) =
  <[Uri_file_fsPath (uri item) := item]> (_sourceFileConfigurations (this w)).
Proof.
  simpl. destruct workspaceFolders as [folders|]; [| done].
  pose proof (forEach_invariant
                (fun p => _sourceFileConfigurations p =
                          <[Uri_file_fsPath (uri item) := item]>
                            (_sourceFileConfigurations (this w)))
                (foldFolder item) folders (storeItem item (this w))) as Hloop.
  destruct (forEach _ folders _) as [p' r]. simpl in *. apply Hloop; [| done].
  intros s folder Hs. by rewrite foldFolder_files.
Qed.

(** A rebuild with the empty database changes only the per-file map. *)
Lemma updateCompileCommands_empty workspaceFolders platform architecture w :
  updateCompileCommands workspaceFolders (JArr []) platform architecture w =
  ({| this := cleared (this w); console := console w |}, Normal ()).
Proof. by rewrite updateCompileCommands_unfold. Qed.

End Files.

Lemma provideLoop_undefined (p : XMakeCppCustomConfigurationProvider) (uris : list string) :
  provideLoop p uris None =
  if bool_decide (Exists (fun u => is_Some (_sourceFileConfigurations p !! u)) uris)
  then Throw TypeError else Normal None.
Proof.
  induction uris as [|u uris IH]; cbn [provideLoop].
  - rewrite bool_decide_false; [done |]. by intros ?%Exists_nil.
  - destruct (_sourceFileConfigurations p !! u) as [item|] eqn:E.
    + rewrite bool_decide_true; [done |]. left. by rewrite E.
    + rewrite IH. case_bool_decide as Hrest; case_bool_decide as Hall;
        try done; exfalso.
      * apply Hall. by right.
      * apply Exists_cons in Hall as [[? Hu] | ?]; [congruence | done].
Qed.

(** ** The POSIX host on the paths of the scenario *)

Example posix_join_normalizes : Posix.join "/p" "../inc" = "/inc".
Proof. reflexivity. Qed.

Example posix_join_relative_file : Posix.join "/p" "src/a.cpp" = "/p/src/a.cpp".
Proof. reflexivity. Qed.

Example posix_basename_compiler : Posix.basename "/usr/bin/g++" = "g++".
Proof. reflexivity. Qed.

Example posix_relative_to_parent (cwd : string) :
  Posix.relative cwd "/p/a.cpp" "/p" = "..".
Proof. reflexivity. Qed.

Example posix_relative_to_elsewhere (cwd : string) :
  Posix.relative cwd "/p/a.cpp" "/w" = "../../w".
Proof. reflexivity. Qed.

Example posix_relative_into_folder (cwd : string) :
  Posix.relative cwd "/p" "/p/sub" = "sub".
Proof. reflexivity. Qed.

Example posix_fsPath_of_file :
  Posix.fsPath (Posix.Uri_file "/p/a.cpp") = "/p/a.cpp".
Proof. reflexivity. Qed.

(** ** The scenario *)

Lemma freshProvider_constructed : constructor (Some ["/p"]) = Normal freshProvider.
Proof. reflexivity. Qed.

Lemma scenario_verdict (cwd : string) (label : json -> string)
    (platform architecture : string) :
  @verdictOf (Posix.host cwd label) scenarioEntry platform architecture
  = Valid scenarioItem.
Proof.
  unfold verdictOf, makeItem, findIntelliSenseMode.
  destruct (String.eqb architecture "x86"); reflexivity.
Qed.

Lemma scenario_stored (cwd : string) (label : json -> string)
    (workspaceFolders : option (list string)) (platform architecture : string)
    (w : world) :
  _sourceFileConfigurations
    (this (fst (@updateCompileCommands (Posix.host cwd label) workspaceFolders
                  (JArr [scenarioEntry]) platform architecture w))) !! "/p/a.cpp"
  = Some scenarioItem.
Proof.
  rewrite updateCompileCommands_unfold. cbv zeta. cbn [forEach].
  rewrite processCommand_verdict, scenario_verdict.
  pose proof (@applyVerdict_Valid_files (Posix.host cwd label) workspaceFolders
                scenarioEntry scenarioItem
                {| this := cleared (this w); console := console w |}) as Hfiles.
  destruct (applyVerdict _ _ _ _) as [w' [[]|e]]; simpl in *;
    rewrite Hfiles; apply lookup_insert_eq.
Qed.

(** C6, amended.  For the entry with directory [/p], file [/p/a.cpp] and
    arguments [sh /usr/bin/g++ -I../inc -DFOO -std=c++17 -Wall], on a POSIX
    host, whatever the provider held and whatever the workspace folders,
    the per-file map holds under [/p/a.cpp] the configuration with
    includePath [/inc] ([path.join] normalizes what it joins), defines
    [FOO], compilerPath [/usr/bin/g++], compilerArgs [-Wall] and standard
    [c++17].  On every host and argument vector, the include paths are, in
    the order of the vector and one for each occurrence, the arguments that
    start with the flavor prefix followed by [I], each cut at index 2 and,
    when not absolute, joined to the entry's directory by [path.join]. *)
Theorem stored_configuration_of_entry :
  (forall cwd label workspaceFolders platform architecture w,
     exists item,
       _sourceFileConfigurations
         (this (fst (@updateCompileCommands (Posix.host cwd label) workspaceFolders
                       (JArr [scenarioEntry]) platform architecture w)))
         !! "/p/a.cpp" = Some item /\
       includePath (configuration item) = ["/inc"] /\
       defines (configuration item) = ["FOO"] /\
       compilerPath (configuration item) = Some (JStr "/usr/bin/g++") /\
       compilerArgs (configuration item) = ["-Wall"] /\
       standard (configuration item) = "c++17") /\
  (forall (host : Host) (dir : string) (l : list string) (c : string),
     l !! 1%nat = Some c ->
     let prefix := if String.eqb (toLowerCase (path_basename c)) "cl" then "/" else "-" in
     let flags := List.filter (fun arg => startsWith arg (prefix +:+ "I")) l in
     exists paths,
       findIncludePaths dir (argv l) = Normal paths /\
       length paths = length flags /\
       forall i flag,
         flags !! i = Some flag ->
         paths !! i = Some (if path_isAbsolute (substring_from 2 flag)
                            then substring_from 2 flag
                            else path_join dir (substring_from 2 flag))).
Proof.
  split.
  - intros cwd label workspaceFolders platform architecture w.
    exists scenarioItem. split; [apply scenario_stored | done].
  - intros host dir l c Hc prefix flags.
    eexists. split; [by apply findIncludePaths_argv |].
    split; [by rewrite length_fmap |].
    intros i flag Hflag. rewrite list_lookup_fmap.
    change (List.filter _ l) with flags. by rewrite Hflag.
Qed.

(** C6 as stated fails on the scenario itself: the configuration stored
    under [/p/a.cpp] does not have the includePath [/p/../inc]. *)
Lemma scenario_includePath_not_verbatim :
  ~ exists item,
      _sourceFileConfigurations
        (this (fst (@updateCompileCommands posixHost (Some ["/p"])
                      (JArr [scenarioEntry]) "linux" "x86_64" freshWorld)))
        !! "/p/a.cpp" = Some item /\
      includePath (configuration item) = ["/p/../inc"] /\
      defines (configuration item) = ["FOO"] /\
      compilerPath (configuration item) = Some (JStr "/usr/bin/g++") /\
      compilerArgs (configuration item) = ["-Wall"] /\
      standard (configuration item) = "c++17".
Proof.
  intros (item & Hitem & Hinc & _).
  unfold posixHost in Hitem. rewrite scenario_stored in Hitem.
  injection Hitem as <-. discriminate Hinc.
Qed.

(** C1, at a failing input.  A provider for the folder [/p] is rebuilt
    with the scenario's entry and then with the empty database: the
    per-file map is emptied, the folder's aggregate is not; a provider
    rebuilt with the empty database alone has the empty aggregate.  On
    every host a rebuild with the empty database leaves the four
    per-folder maps as they were. *)
Theorem rebuild_keeps_earlier_aggregates :
  let rebuild := @updateCompileCommands posixHost (Some ["/p"]) in
  let first := fst (rebuild (JArr [scenarioEntry]) "linux" "x86_64" freshWorld) in
  let second := fst (rebuild (JArr []) "linux" "x86_64" first) in
  let alone := fst (rebuild (JArr []) "linux" "x86_64" freshWorld) in
  _sourceFileConfigurations (this second) = ∅ /\
  browseOf (this second) "/p" =
    {| browsePath := Some ["/inc"];
       browseCompilerArgs := Some ["-Wall"];
       browseCompilerPath := Some (Some (JStr "/usr/bin/g++"));
       browseStandard := Some "c++17" |} /\
  browseOf (this alone) "/p" =
    {| browsePath := Some [];
       browseCompilerArgs := Some [];
       browseCompilerPath := None;
       browseStandard := None |} /\
  (forall (host : Host) workspaceFolders platform architecture w,
     this (fst (updateCompileCommands workspaceFolders (JArr []) platform architecture w))
     = cleared (this w)).
Proof.
  cbv zeta. split; [| split; [| split]].
  - by rewrite updateCompileCommands_empty.
  - vm_compute. reflexivity.
  - vm_compute. reflexivity.
  - intros. by rewrite updateCompileCommands_empty.
Qed.

(** C2, at a failing input.  [items] is never assigned an array, so the
    first known path makes [items.push] throw; with no known path the
    promise resolves with [undefined], not with a list.  After the
    scenario's rebuild, the query for [/p/a.cpp] throws. *)
Theorem provideConfigurations_outcomes :
  (forall p uris,
     provideConfigurations p uris =
     if bool_decide (Exists (fun u => is_Some (_sourceFileConfigurations p !! u)) uris)
     then Throw TypeError else Normal None) /\
  let rebuilt :=
    this (fst (@updateCompileCommands posixHost (Some ["/p"])
                 (JArr [scenarioEntry]) "linux" "x86_64" freshWorld)) in
  canProvideConfiguration rebuilt "/p/a.cpp" = true /\
  provideConfigurations rebuilt ["/p/a.cpp"] = Throw TypeError /\
  provideConfigurations rebuilt ["/p/b.cpp"] = Normal None.
Proof.
  split; [intros p uris; apply provideLoop_undefined |].
  cbv zeta. repeat split; vm_compute; reflexivity.
Qed.

(** C3, at a failing input.  An entry whose [arguments] is [null] passes
    the guard ([typeof null] is ["object"]); the classifier then throws,
    which ends the rebuild: on every host the rebuild raises a [TypeError],
    writes no diagnostic, and processes none of the entries that follow. *)
Theorem null_arguments_end_the_rebuild (host : Host)
    (directory file : string) (rest : list json)
    (workspaceFolders : option (list string)) (platform architecture : string)
    (w : world) :
  updateCompileCommands workspaceFolders
    (JArr (JObj [("directory", JStr directory); ("file", JStr file);
                 ("arguments", JNull)] :: rest))
    platform architecture w
  = ({| this := cleared (this w); console := console w |}, Throw TypeError).
Proof. by rewrite updateCompileCommands_unfold. Qed.

(** ** Instances *)

Lemma findStandard_resolves_witness :
  scenarioArguments !! 1%nat = Some "/usr/bin/g++" /\
  Forall (fun arg => startsWith arg "-std=" = false)
         ["sh"; "/usr/bin/g++"; "-I../inc"; "-DFOO"] /\
  "c++17" ∈ recognizedStandards /\
  @findStandard posixHost (argv scenarioArguments) = Normal "c++17".
Proof.
  assert (Hpre : Forall (fun arg => startsWith arg "-std=" = false)
                        ["sh"; "/usr/bin/g++"; "-I../inc"; "-DFOO"])
    by (repeat constructor).
  assert (Hin : "c++17" ∈ recognizedStandards) by (repeat constructor).
  split; [reflexivity |]. split; [exact Hpre |]. split; [exact Hin |].
  destruct (@findStandard_resolves posixHost scenarioArguments "/usr/bin/g++" eq_refl)
    as (_ & _ & Htoken & _).
  exact (proj1 (Htoken ["sh"; "/usr/bin/g++"; "-I../inc"; "-DFOO"] "c++17" ["-Wall"]
                  eq_refl Hpre) Hin).
Defined.

Lemma findCompilerArgs_passThrough_witness :
  scenarioArguments !! 1%nat = Some "/usr/bin/g++" /\
  exists kept, @findCompilerArgs posixHost (argv scenarioArguments) = Normal kept
               /\ kept = ["-Wall"].
Proof.
  split; [reflexivity |].
  destruct (@findCompilerArgs_passThrough posixHost scenarioArguments "/usr/bin/g++" eq_refl)
    as (kept & Hrun & -> & _).
  by eexists.
Defined.

Lemma findIntelliSenseMode_canonical_witness :
  "arm64" <> "x86" /\
  @findCompiler posixHost (argv ["sh"; "/usr/bin/gcc"]) = Normal "gcc" /\
  ("gcc", canonicalArch "x64") ∈ modeTable /\
  @findIntelliSenseMode posixHost (argv ["sh"; "/usr/bin/gcc"]) "linux" "arm64"
  = Normal "gcc-x64".
Proof.
  assert (Hne : "arm64" <> "x86") by discriminate.
  assert (Hrow : ("gcc", canonicalArch "x64") ∈ modeTable) by (repeat constructor).
  split; [exact Hne |]. split; [reflexivity |]. split; [exact Hrow |].
  destruct (@findIntelliSenseMode_canonical posixHost (argv ["sh"; "/usr/bin/gcc"]) "linux")
    as (Harch & _ & Hrows).
  destruct (Harch "arm64" Hne) as [_ ->].
  exact (proj2 (Hrows "x64" "gcc" eq_refl) Hrow).
Defined.

Lemma findIntelliSenseMode_cl_witness :
  ["sh"; "/opt/msvc/bin/CL"; "/W4"] !! 1%nat = Some "/opt/msvc/bin/CL" /\
  toLowerCase (@path_basename posixHost "/opt/msvc/bin/CL") = "cl" /\
  @findIntelliSenseMode posixHost (argv ["sh"; "/opt/msvc/bin/CL"; "/W4"]) "windows" "x64"
  = Normal "msvc-x86".
Proof.
  split; [reflexivity |]. split; [reflexivity |].
  exact (proj2 (proj1 (@findIntelliSenseMode_cl posixHost
                         ["sh"; "/opt/msvc/bin/CL"; "/W4"]
                         "/opt/msvc/bin/CL" "windows" "x64" eq_refl) eq_refl)).
Defined.

Lemma aggregates_never_duplicate_witness :
  let rebuilt :=
    this (fst (@updateCompileCommands posixHost (Some ["/p"])
                 (JArr [scenarioEntry]) "linux" "x86_64" freshWorld)) in
  @reachable posixHost rebuilt /\
  _workspaceBrowsePaths rebuilt !! "/p" = Some ["/inc"] /\
  NoDup ["/inc"].
Proof.
  cbv zeta.
  assert (Hreach : @reachable posixHost
            (this (fst (@updateCompileCommands posixHost (Some ["/p"])
                          (JArr [scenarioEntry]) "linux" "x86_64" freshWorld)))).
  { apply (@reachable_rebuilt posixHost freshProvider).
    apply (@reachable_new posixHost (Some ["/p"])). reflexivity. }
  assert (Hlookup :
    _workspaceBrowsePaths
      (this (fst (@updateCompileCommands posixHost (Some ["/p"])
                    (JArr [scenarioEntry]) "linux" "x86_64" freshWorld)))
      !! "/p" = Some ["/inc"]) by (vm_compute; reflexivity).
  split; [exact Hreach |]. split; [exact Hlookup |].
  destruct (@aggregates_never_duplicate posixHost) as (_ & _ & _ & Hall).
  exact (proj1 (Hall _ Hreach "/p") ["/inc"] Hlookup).
Defined.

Lemma stored_configuration_of_entry_witness :
  scenarioArguments !! 1%nat = Some "/usr/bin/g++" /\
  exists paths,
    @findIncludePaths posixHost "/p" (argv scenarioArguments) = Normal paths /\
    paths !! 0%nat = Some "/inc".
Proof.
  split; [reflexivity |].
  destruct (proj2 stored_configuration_of_entry posixHost "/p" scenarioArguments
              "/usr/bin/g++" eq_refl) as (paths & Hrun & _ & Hnth).
  exists paths. split; [exact Hrun |].
  apply (Hnth 0%nat "-I../inc"). reflexivity.
Defined.

(** * Further properties of the provider *)

(** ** The classifier, on every value *)

Lemma filterM_startsWith_strings (p : string) (elems kept : list json) :
  filterM (fun arg => js_startsWith arg p) elems = Normal kept ->
  exists l : list string, elems = JStr <$> l.
Proof.
  revert kept. induction elems as [|x elems IH]; intros kept Hrun.
  - by exists [].
  - cbn [filterM] in Hrun. destruct x; try done. simpl in Hrun.
    destruct (filterM _ elems) as [r|e] eqn:Hr; [| done].
    destruct (IH r eq_refl) as [l ->]. by exists (s :: l).
Qed.

Section ClassifierDomain.
Context `{Host}.

Lemma isMSVC_Normal (args : option json) (msvc : bool) :
  isMSVC args = Normal msvc ->
  exists c, index1 args = Normal (Some (JStr c)).
Proof.
  unfold isMSVC. destruct (index1 args) as [[[]|]|e]; try done. by eexists.
Qed.

Lemma findIncludePaths_Normal (dir : string) (args : option json) (paths : list string) :
  findIncludePaths dir args = Normal paths -> isArgumentVector args.
Proof.
  unfold findIncludePaths. intros Hrun.
  destruct (isMSVC args) as [msvc|e] eqn:Hmsvc; [| done].
  destruct (isMSVC_Normal args msvc Hmsvc) as [c Hc]. simpl in Hrun.
  destruct args as [[| | | |elems|]|]; try done. simpl in Hrun.
  destruct (filterM _ elems) as [kept|e] eqn:Hkept; [| done].
  destruct (filterM_startsWith_strings _ elems kept Hkept) as [l ->].
  exists l, c. split; [done |].
  simpl in Hc. rewrite list_lookup_fmap in Hc.
  destruct (l !! 1%nat) as [c'|]; simpl in Hc; congruence.
Qed.

Lemma makeItem_argv (directory file platform architecture : string)
    (l : list string) (c : string) :
  l !! 1%nat = Some c ->
  let msvc := String.eqb (toLowerCase (path_basename c)) "cl" in
  makeItem directory file (argv l) platform architecture =
  Normal
    {| uri := if path_isAbsolute file then file else path_join directory file;
       configuration :=
         {| includePath :=
              (fun inc => let includePath := substring_from 2 inc in
                          if path_isAbsolute includePath then includePath
                          else path_join directory includePath)
              <$> List.filter (fun arg => startsWith arg (flavorPrefix msvc +:+ "I")) l;
            defines :=
              substring_from 2
              <$> List.filter (fun arg => startsWith arg (flavorPrefix msvc +:+ "D")) l;
            compilerPath := Some (JStr c);
            compilerArgs := List.filter (passThrough msvc) l;
            standard :=
              match List.find
                      (fun arg => startsWith arg
                         (flavorPrefix msvc +:+ (if msvc then "std:" else "std="))) l with
              | Some stdArg => standardSwitch (substring_from 5 stdArg)
              | None => "c++20"
              end;
            intelliSenseMode :=
              modeSwitch ((toLowerCase (path_basename c) +:+ "-") +:+
                          canonicalArch architecture) |} |}.
Proof.
  intros Hc msvc. unfold makeItem, findCompilerPath, findIntelliSenseMode.
  rewrite (findIncludePaths_argv directory l c Hc), (index1_argv l c Hc),
    (findCompilerArgs_argv l c Hc), (findStandard_argv l c Hc),
    (findDefines_argv l c Hc), (findCompiler_argv l c Hc).
  reflexivity.
Qed.

(** X1.  On an argument vector the defines are, in the order of the
    vector and one for each occurrence, the arguments that start with the
    flavor prefix followed by [D], each cut at index 2 and otherwise
    verbatim: a define [NAME=value] stays one string. *)
Theorem findDefines_verbatim (l : list string) (c : string) :
  l !! 1%nat = Some c ->
  let prefix := if String.eqb (toLowerCase (path_basename c)) "cl" then "/" else "-" in
  let flags := List.filter (fun arg => startsWith arg (prefix +:+ "D")) l in
  exists defs,
    findDefines (argv l) = Normal defs /\
    length defs = length flags /\
    (forall i flag, flags !! i = Some flag -> defs !! i = Some (substring_from 2 flag)) /\
    (forall name value,
       (prefix +:+ "D" +:+ name +:+ "=" +:+ value) ∈ l ->
       (name +:+ "=" +:+ value) ∈ defs).
Proof.
  intros Hc prefix flags.
  eexists. split; [by apply findDefines_argv |].
  set (msvc := String.eqb _ "cl") in *.
  change (flavorPrefix msvc) with prefix. fold flags.
  split; [by rewrite length_fmap |]. split.
  - intros i flag Hflag. by rewrite list_lookup_fmap, Hflag.
  - intros name value Hin.
    apply list_elem_of_fmap. exists (prefix +:+ "D" +:+ name +:+ "=" +:+ value).
    split; [subst prefix; by destruct msvc |].
    apply elem_of_List_filter. split; [done |].
    rewrite <- string_app_assoc. apply startsWith_app.
Qed.

Lemma makeItem_domain
    (directory file platform architecture : string) (arguments : option json) :
  ((exists item, makeItem directory file arguments platform architecture = Normal item)
   <-> isArgumentVector arguments) /\
  (~ isArgumentVector arguments ->
   makeItem directory file arguments platform architecture = Throw TypeError).
Proof.
  assert (Hiff : (exists item,
                     makeItem directory file arguments platform architecture = Normal item)
                 <-> isArgumentVector arguments).
  { split.
    - intros [item Hitem]. unfold makeItem in Hitem.
      destruct (findIncludePaths directory arguments) as [paths|e] eqn:Hpaths; [| done].
      by eapply findIncludePaths_Normal.
    - intros (l & c & -> & Hc). eexists. by apply makeItem_argv. }
  split; [exact Hiff |].
  intros Hnot.
  destruct (makeItem directory file arguments platform architecture) as [item|[]] eqn:Hrun;
    [| done].
  exfalso. apply Hnot, Hiff. by exists item.
Qed.



End ClassifierDomain.

(** ** What one command does, and when a rebuild ends normally *)

Lemma extends_is_Some (m m' : gmap string (list string)) (f : string) :
  extends m m' -> (is_Some (m !! f) <-> is_Some (m' !! f)).
Proof.
  intros Hext. specialize (Hext f). destruct (m !! f) as [l|].
  - destruct Hext as [l' ->]. split; by eexists.
  - rewrite Hext. done.
Qed.


Section Outcomes.
Context `{Host}.

Lemma foldFolder_attributed item p folder :
  foldFolder item p folder =
  if attributed item folder then
    match pushIfNotExist (_workspaceBrowsePaths p !! folder)
            (includePath (configuration item)) with
    | Throw e => (p, Throw e)
    | Normal paths =>
        match pushIfNotExist (_workspaceCompilerArgs p !! folder)
                (compilerArgs (configuration item)) with
        | Throw e =>
            ({| _sourceFileConfigurations := _sourceFileConfigurations p;
                _workspaceBrowsePaths := writeBack folder paths (_workspaceBrowsePaths p);
                _workspaceCompilerArgs := _workspaceCompilerArgs p;
                _workspaceCompiler := _workspaceCompiler p;
                _workspaceStandard := _workspaceStandard p |}, Throw e)
        | Normal args =>
            ({| _sourceFileConfigurations := _sourceFileConfigurations p;
                _workspaceBrowsePaths := writeBack folder paths (_workspaceBrowsePaths p);
                _workspaceCompilerArgs := writeBack folder args (_workspaceCompilerArgs p);
                _workspaceCompiler :=
                  <[folder := compilerPath (configuration item)]> (_workspaceCompiler p);
                _workspaceStandard :=
                  <[folder := standard (configuration item)]> (_workspaceStandard p) |},
             Normal ())
        end
    end
  else (p, Normal ()).
Proof. reflexivity. Qed.







End Outcomes.

(** ** The per-file map and the console after a rebuild *)

Lemma fold_left_insert_list_to_map {V} (l : list (string * V)) (m : gmap string V) :
  fold_left (fun acc kv => <[kv.1 := kv.2]> acc) l m = list_to_map (reverse l) ∪ m.
Proof.
  revert m. induction l as [|[k v] l IH]; intros m; simpl.
  - by rewrite (left_id_L ∅ (∪)).
  - rewrite IH, reverse_cons, list_to_map_app. simpl.
    rewrite <- (assoc_L (∪)). f_equal.
    by rewrite insert_empty, <- insert_union_singleton_l.
Qed.

Section AfterRebuild.
Context `{Host}.

Lemma verdict_Malformed_iff cmd platform architecture :
  verdictOf cmd platform architecture = Malformed <-> isRejected cmd = true.
Proof.
  unfold verdictOf, isRejected, guard.
  destruct (getProp cmd "directory") as [[[]|]|]; try done;
    destruct (getProp cmd "file") as [[[]|]|]; try done;
    destruct (getProp cmd "arguments") as [arguments|]; try done.
  simpl. destruct (String.eqb (typeof arguments) "object"); [| done].
  by destruct (makeItem _ _ _ _ _).
Qed.

Lemma validItems_cons cmd cmds platform architecture :
  validItems (cmd :: cmds) platform architecture =
  match verdictOf cmd platform architecture with
  | Valid item => item :: validItems cmds platform architecture
  | _ => validItems cmds platform architecture
  end.
Proof. unfold validItems. simpl. by destruct (verdictOf cmd platform architecture). Qed.

(** What a command that ends normally leaves of the per-file map and the
    console. *)
Lemma processCommand_Normal workspaceFolders platform architecture w cmd w' :
  processCommand workspaceFolders platform architecture w cmd = (w', Normal ()) ->
  match verdictOf cmd platform architecture with
  | Malformed =>
      this w' = this w /\ console w' = console w ++ [diagnostic cmd]
  | Raises _ => False
  | Valid item =>
      _sourceFileConfigurations (this w') =
        <[Uri_file_fsPath (uri item) := item]> (_sourceFileConfigurations (this w)) /\
      console w' = console w
  end.
Proof.
  rewrite processCommand_verdict.
  pose proof (applyVerdict_Valid_files workspaceFolders cmd) as Hfiles.
  destruct (verdictOf cmd platform architecture) as [|e|item]; simpl.
  - by intros [= <-].
  - done.
  - specialize (Hfiles item w). simpl in Hfiles.
    destruct workspaceFolders as [folders|]; [| done].
    destruct (forEach _ folders _) as [p' r]. intros [= <- ->]. by simpl in *.
Qed.

Lemma forEach_processCommand_Normal workspaceFolders platform architecture cmds w w' :
  forEach (processCommand workspaceFolders platform architecture) cmds w = (w', Normal ()) ->
  _sourceFileConfigurations (this w') =
    fold_left (fun acc kv => <[kv.1 := kv.2]> acc)
      (keyedItems cmds platform architecture) (_sourceFileConfigurations (this w)) /\
  console w' = console w ++ (diagnostic <$> List.filter isRejected cmds).
Proof.
  revert w. induction cmds as [|cmd cmds IH]; intros w; cbn [forEach].
  - intros [= <-]. by rewrite app_nil_r.
  - destruct (processCommand _ _ _ w cmd) as [w1 [[]|e]] eqn:Hcmd; [| done].
    intros Hrest. destruct (IH w1 Hrest) as [-> ->].
    apply processCommand_Normal in Hcmd.
    unfold keyedItems. rewrite validItems_cons. cbn [List.filter].
    pose proof (verdict_Malformed_iff cmd platform architecture) as Hrej.
    destruct (verdictOf cmd platform architecture) as [|e|item]; [| done |].
    + destruct Hcmd as [-> ->]. rewrite (proj1 Hrej eq_refl).
      split; [done |]. by rewrite fmap_cons, <- app_assoc.
    + destruct Hcmd as [-> ->].
      destruct (isRejected cmd); [by destruct Hrej as [_ Hr]; specialize (Hr eq_refl) |].
      by rewrite fmap_cons.
Qed.

Lemma rebuild_files workspaceFolders cmds platform architecture w w' :
  updateCompileCommands workspaceFolders (JArr cmds) platform architecture w
  = (w', Normal ()) ->
  _sourceFileConfigurations (this w') =
  list_to_map (reverse (keyedItems cmds platform architecture)).
Proof.
  rewrite updateCompileCommands_unfold. cbv zeta. intros Hrun.
  apply forEach_processCommand_Normal in Hrun as [-> _]. simpl.
  by rewrite fold_left_insert_list_to_map, (right_id_L ∅ (∪)).
Qed.

(** X7.  After a rebuild that ends normally the per-file map is a function
    of the database, the platform and the architecture alone: it holds the
    valid commands' items under their [fsPath] keys, a later item
    replacing an earlier one of the same key, whatever the provider held
    before and whatever the workspace folders. *)
Theorem files_after_rebuild workspaceFolders cmds platform architecture w w' :
  updateCompileCommands workspaceFolders (JArr cmds) platform architecture w
  = (w', Normal ()) ->
  _sourceFileConfigurations (this w') =
  list_to_map (reverse (keyedItems cmds platform architecture)).
Proof. apply rebuild_files. Qed.


(** X9.  After a rebuild that ends normally [canProvideConfiguration]
    answers [true] for a path exactly when some valid command of the
    database has that path as its [fsPath]. *)
Theorem canProvideConfiguration_after_rebuild workspaceFolders cmds
    platform architecture w w' (uri_fsPath : string) :
  updateCompileCommands workspaceFolders (JArr cmds) platform architecture w
  = (w', Normal ()) ->
  canProvideConfiguration (this w') uri_fsPath = true <->
  exists item,
    item ∈ validItems cmds platform architecture /\
    Uri_file_fsPath (uri item) = uri_fsPath.
Proof.
  intros Hrun. unfold canProvideConfiguration.
  rewrite bool_decide_eq_true, (rebuild_files _ _ _ _ _ _ Hrun).
  rewrite <- elem_of_dom, dom_list_to_map_L, elem_of_list_to_set.
  rewrite fmap_reverse, elem_of_reverse. unfold keyedItems.
  rewrite <- list_fmap_compose, list_elem_of_fmap. simpl.
  split; intros (item & Hkey & Hin); exists item; by split.
Qed.


End AfterRebuild.

(** ** Rejected commands and the other commands *)

Section Rejected.
Context `{Host}.

Lemma processCommand_this workspaceFolders platform architecture w1 w2 cmd :
  this w1 = this w2 ->
  this (fst (processCommand workspaceFolders platform architecture w1 cmd)) =
  this (fst (processCommand workspaceFolders platform architecture w2 cmd)) /\
  snd (processCommand workspaceFolders platform architecture w1 cmd) =
  snd (processCommand workspaceFolders platform architecture w2 cmd).
Proof.
  intros Hthis. rewrite !processCommand_verdict.
  destruct (verdictOf cmd platform architecture) as [|e|item]; simpl; try done.
  rewrite Hthis. destruct workspaceFolders as [folders|]; [| done].
  by destruct (forEach _ folders _).
Qed.

Lemma forEach_skip_rejected workspaceFolders platform architecture cmds w1 w2 :
  this w1 = this w2 ->
  this (fst (forEach (processCommand workspaceFolders platform architecture) cmds w1)) =
  this (fst (forEach (processCommand workspaceFolders platform architecture)
               (List.filter (fun cmd => negb (isRejected cmd)) cmds) w2)) /\
  snd (forEach (processCommand workspaceFolders platform architecture) cmds w1) =
  snd (forEach (processCommand workspaceFolders platform architecture)
         (List.filter (fun cmd => negb (isRejected cmd)) cmds) w2).
Proof.
  revert w1 w2. induction cmds as [|cmd cmds IH]; intros w1 w2 Hthis;
    cbn [forEach List.filter]; [done |].
  destruct (isRejected cmd) eqn:Hrej; cbn [negb].
  - assert (Hguard : guard cmd = Normal false).
    { unfold isRejected in Hrej. by destruct (guard cmd) as [[]|]. }
    rewrite (guard_rejects workspaceFolders platform architecture w1 cmd Hguard).
    by apply IH.
  - cbn [forEach].
    destruct (processCommand_this workspaceFolders platform architecture w1 w2 cmd Hthis)
      as [Hnext Hend].
    destruct (processCommand _ _ _ w1 cmd) as [w1' r1].
    destruct (processCommand _ _ _ w2 cmd) as [w2' r2].
    simpl in *. subst r2. destruct r1 as [[]|e]; [by apply IH | done].
Qed.

(** X4.  The commands the guard rejects (a [directory] or [file] that is
    no string, [arguments] whose [typeof] is not ["object"]) have no
    effect on the processing of the other commands: the rebuild leaves the
    provider, and ends, as the rebuild of the database without them
    does. *)
Theorem rejected_commands_have_no_effect workspaceFolders cmds platform architecture w :
  let all := updateCompileCommands workspaceFolders (JArr cmds)
               platform architecture w in
  let others := updateCompileCommands workspaceFolders
                  (JArr (List.filter (fun cmd => negb (isRejected cmd)) cmds))
                  platform architecture w in
  this (fst all) = this (fst others) /\ snd all = snd others.
Proof.
  cbv zeta. rewrite !updateCompileCommands_unfold. cbv zeta.
  by apply forEach_skip_rejected.
Qed.

End Rejected.

(** ** The tracked folders *)

Section Tracked.
Context `{Host}.

Lemma rebuilds_grows p p' : rebuilds p p' -> grows p p'.
Proof.
  induction 1 as [p | p p' ? ? ? ? out _ IH]; [apply grows_refl |].
  eapply grows_trans; [exact IH |].
  apply (updateCompileCommands_grows _ _ _ _ {| this := p'; console := out |}).
Qed.

(** X11.  The folders the provider answers for are those of its
    construction, whatever rebuilds follow and whatever the workspace
    folders are by then: [provideFolderBrowseConfiguration] gives a
    configuration for exactly these and [null] for every other path, and
    the two [canProvide...] queries answer [true] exactly when the
    provider was constructed with at least one folder. *)
Theorem tracked_folders_are_fixed (folders : list string)
    (p0 p : XMakeCppCustomConfigurationProvider) :
  constructor (Some folders) = Normal p0 ->
  rebuilds p0 p ->
  (forall folder,
     (folder ∈ folders ->
      provideFolderBrowseConfiguration p folder = Some (browseOf p folder)) /\
     (folder ∉ folders -> provideFolderBrowseConfiguration p folder = None)) /\
  canProvideBrowseConfiguration p = bool_decide (folders <> []) /\
  canProvideBrowseConfigurationsPerFolder p = bool_decide (folders <> []).
Proof.
  intros Hnew Hre. apply rebuilds_grows in Hre as [Hb _].
  assert (Hkeys : forall folder,
            is_Some (_workspaceBrowsePaths p !! folder) <-> folder ∈ folders).
  { intros folder. rewrite <- (extends_is_Some _ _ folder Hb).
    destruct (constructor_lookup folders p0 folder Hnew) as [-> _].
    destruct (decide (folder ∈ folders)) as [Hin | Hnin].
    - split; [done |]. intros _. by eexists.
    - split; [by intros [? [=]] | done]. }
  assert (Hsize : bool_decide (0 < size (_workspaceBrowsePaths p))
                  = bool_decide (folders <> [])).
  { apply bool_decide_ext. split.
    - intros Hpos ->.
      assert (_workspaceBrowsePaths p = ∅) as Hempty.
      { apply map_empty. intros folder. apply eq_None_not_Some.
        rewrite Hkeys. apply not_elem_of_nil. }
      rewrite Hempty, map_size_empty in Hpos. lia.
    - intros Hne. destruct folders as [|folder rest]; [done |].
      destruct (proj2 (Hkeys folder)) as [l Hl]; [by left |].
      destruct (decide (size (_workspaceBrowsePaths p) = 0)) as [Hz | Hnz]; [| lia].
      apply map_size_empty_iff in Hz. by rewrite Hz, lookup_empty in Hl. }
  split; [| by split].
  intros folder. unfold provideFolderBrowseConfiguration. split; intros Hin.
  - by rewrite bool_decide_true by by apply Hkeys.
  - by rewrite bool_decide_false by by rewrite Hkeys.
Qed.

End Tracked.

(** ** The aggregate of a folder after a rebuild *)

Lemma pushIfNotExist_pushed (from arr : list string) :
  pushIfNotExist (Some arr) from = Normal (Some (pushed arr from)).
Proof.
  revert arr. induction from as [|incoming from IH]; intros arr; [done |].
  cbn [pushIfNotExist]. unfold pushed. cbn [fold_left].
  case_bool_decide; apply IH.
Qed.

Lemma pushed_appends (from arr : list string) :
  exists added,
    pushed arr from = arr ++ added /\
    NoDup added /\
    (forall x, x ∈ added <-> x ∈ from /\ x ∉ arr).
Proof.
  destruct (pushIfNotExist_appends from arr) as (added & Heq & Hnd & _ & Hel).
  rewrite pushIfNotExist_pushed in Heq. injection Heq as Heq. by exists added.
Qed.

Lemma pushed_idem (from arr : list string) :
  pushed (pushed arr from) from = pushed arr from.
Proof.
  pose proof (pushIfNotExist_pushed from (pushed arr from)) as Hagain.
  rewrite pushIfNotExist_absorbed in Hagain; [congruence |].
  apply (pushIfNotExist_covers from arr). apply pushIfNotExist_pushed.
Qed.

Lemma pushed_app (arr from1 from2 : list string) :
  pushed arr (from1 ++ from2) = pushed (pushed arr from1) from2.
Proof. unfold pushed. by rewrite fold_left_app. Qed.

Lemma foldInto_idem item b : foldInto item (foldInto item b) = foldInto item b.
Proof.
  destruct b as [[paths|] [args|] cp std]; unfold foldInto; simpl;
    by rewrite ?pushed_idem.
Qed.

Lemma push_writeBack_lookup (m : gmap string (list string)) (g folder : string)
    (from : list string) (out : option (list string)) :
  pushIfNotExist (m !! g) from = Normal out ->
  writeBack g out m !! folder =
  if bool_decide (g = folder) then (fun arr => pushed arr from) <$> m !! folder
  else m !! folder.
Proof.
  intros Hpush. case_bool_decide as Hg.
  - subst g. destruct (m !! folder) as [arr|] eqn:E.
    + rewrite pushIfNotExist_pushed in Hpush. injection Hpush as <-.
      simpl. by rewrite lookup_insert_eq.
    + rewrite pushIfNotExist_undefined in Hpush. destruct from; [| done].
      injection Hpush as <-. simpl. by rewrite E.
  - destruct out as [arr|]; simpl; [| done]. by rewrite lookup_insert_ne.
Qed.

Section Aggregates.
Context `{Host}.

Lemma foldFolder_browseOf item p g p1 folder :
  foldFolder item p g = (p1, Normal ()) ->
  browseOf p1 folder =
  if bool_decide (g = folder) && attributed item folder
  then foldInto item (browseOf p folder) else browseOf p folder.
Proof.
  rewrite foldFolder_attributed.
  destruct (attributed item g) eqn:Hattr.
  2:{ intros [= <-]. case_bool_decide as Hg; [| done]. subst g. by rewrite Hattr. }
  destruct (pushIfNotExist (_ !! g) (includePath _)) as [paths|e] eqn:Hpaths; [| done].
  destruct (pushIfNotExist (_ !! g) (compilerArgs _)) as [args|e] eqn:Hargs; [| done].
  intros [= <-]. unfold browseOf, foldInto. simpl.
  rewrite (push_writeBack_lookup _ g folder _ _ Hpaths),
    (push_writeBack_lookup _ g folder _ _ Hargs).
  case_bool_decide as Hg.
  - subst g. rewrite Hattr. simpl. by rewrite !lookup_insert_eq.
  - simpl. by rewrite !lookup_insert_ne.
Qed.

Lemma forEach_foldFolder_browseOf item folders p p' folder :
  forEach (foldFolder item) folders p = (p', Normal ()) ->
  browseOf p' folder =
  if bool_decide (folder ∈ folders) && attributed item folder
  then foldInto item (browseOf p folder) else browseOf p folder.
Proof.
  revert p. induction folders as [|g folders IH]; intros p; cbn [forEach].
  - intros [= <-]. rewrite bool_decide_false by apply not_elem_of_nil. done.
  - destruct (foldFolder item p g) as [p1 [[]|e]] eqn:Hg; [| done].
    intros Hrest. rewrite (IH p1 Hrest), (foldFolder_browseOf _ _ _ _ folder Hg).
    destruct (attributed item folder); rewrite ?andb_false_r; [| done].
    rewrite !andb_true_r.
    destruct (decide (g = folder)) as [-> | Hne].
    + rewrite (bool_decide_true (folder = folder)) by done.
      rewrite (bool_decide_true (folder ∈ folder :: folders)) by by left.
      case_bool_decide; [apply foldInto_idem | done].
    + rewrite (bool_decide_false (g = folder)) by done.
      apply (f_equal (fun b : bool => if b then _ else _)).
      apply bool_decide_ext. rewrite elem_of_cons.
      split; [by right | intros [Heq | Hin]; [by subst | done]].
Qed.

Lemma contributors_cons workspaceFolders folder cmd cmds platform architecture :
  contributors workspaceFolders folder (cmd :: cmds) platform architecture =
  match verdictOf cmd platform architecture, workspaceFolders with
  | Valid item, Some folders =>
      if bool_decide (folder ∈ folders) && attributed item folder
      then item :: contributors workspaceFolders folder cmds platform architecture
      else contributors workspaceFolders folder cmds platform architecture
  | _, _ => contributors workspaceFolders folder cmds platform architecture
  end.
Proof.
  unfold contributors. rewrite validItems_cons.
  destruct (verdictOf cmd platform architecture) as [|e|item];
    destruct workspaceFolders as [folders|]; try done.
  case_bool_decide; [| done]. cbn [List.filter andb].
  by destruct (attributed item folder).
Qed.

Lemma forEach_processCommand_browseOf workspaceFolders platform architecture
    cmds w w' folder :
  forEach (processCommand workspaceFolders platform architecture) cmds w = (w', Normal ()) ->
  browseOf (this w') folder =
  fold_left (fun b item => foldInto item b)
    (contributors workspaceFolders folder cmds platform architecture)
    (browseOf (this w) folder).
Proof.
  revert w. induction cmds as [|cmd cmds IH]; intros w; cbn [forEach].
  - intros [= <-]. unfold contributors.
    destruct workspaceFolders; [case_bool_decide |]; done.
  - destruct (processCommand _ _ _ w cmd) as [w1 [[]|e]] eqn:Hcmd; [| done].
    intros Hrest. rewrite (IH w1 Hrest), contributors_cons.
    rewrite processCommand_verdict in Hcmd.
    destruct (verdictOf cmd platform architecture) as [|e|item]; simpl in Hcmd.
    + by injection Hcmd as <-.
    + done.
    + destruct workspaceFolders as [folders|]; [| done].
      destruct (forEach _ folders _) as [p' r] eqn:Hloop.
      injection Hcmd as <- ->. simpl.
      rewrite (forEach_foldFolder_browseOf _ _ _ _ folder Hloop).
      change (browseOf (storeItem item (this w)) folder) with (browseOf (this w) folder).
      by destruct (bool_decide (folder ∈ folders) && attributed item folder).
Qed.

Lemma rebuild_browseOf workspaceFolders cmds platform architecture w w' folder :
  updateCompileCommands workspaceFolders (JArr cmds) platform architecture w
  = (w', Normal ()) ->
  browseOf (this w') folder =
  fold_left (fun b item => foldInto item b)
    (contributors workspaceFolders folder cmds platform architecture)
    (browseOf (this w) folder).
Proof.
  rewrite updateCompileCommands_unfold. cbv zeta. intros Hrun.
  by rewrite (forEach_processCommand_browseOf _ _ _ _ _ _ folder Hrun).
Qed.

(** X12.  After a rebuild that ends normally the aggregate of a folder is
    the aggregate it had before, folded with the items of the valid
    commands whose file is attributed to the folder, in the order of the
    database, when the folder is among the workspace folders: each item
    pushes its include paths and its pass-through arguments and overwrites
    the compiler path and the standard. *)
Theorem aggregate_after_rebuild workspaceFolders cmds platform architecture w w' folder :
  updateCompileCommands workspaceFolders (JArr cmds) platform architecture w
  = (w', Normal ()) ->
  browseOf (this w') folder =
  fold_left (fun b item => foldInto item b)
    (contributors workspaceFolders folder cmds platform architecture)
    (browseOf (this w) folder).
Proof. apply rebuild_browseOf. Qed.

End Aggregates.

Lemma forEach_invariant_in {S A} (P : S -> Prop) (cb : S -> A -> S * completion unit)
    (l : list A) (s : S) :
  (forall s x, x ∈ l -> P s -> P (fst (cb s x))) ->
  P s -> P (fst (forEach cb l s)).
Proof.
  revert s. induction l as [|x l IH]; intros s Hcb Hs; simpl; [done |].
  pose proof (Hcb s x ltac:(by left) Hs) as Hx.
  destruct (cb s x) as [s' [[]|e]]; simpl in *; [| done].
  apply IH; [| done]. intros s0 y Hy. apply Hcb. by right.
Qed.

Lemma foldInto_paths (items : list SourceFileConfigurationItem)
    (b : WorkspaceBrowseConfiguration) :
  browsePath (fold_left (fun b item => foldInto item b) items b) =
  (fun arr => pushed arr (items ≫= (fun item => includePath (configuration item))))
  <$> browsePath b.
Proof.
  revert b. induction items as [|item items IH]; intros b; simpl.
  - by destruct (browsePath b).
  - rewrite IH. simpl. destruct (browsePath b) as [arr|]; [| done]. simpl.
    by rewrite pushed_app.
Qed.

Lemma foldInto_args (items : list SourceFileConfigurationItem)
    (b : WorkspaceBrowseConfiguration) :
  browseCompilerArgs (fold_left (fun b item => foldInto item b) items b) =
  (fun arr => pushed arr (items ≫= (fun item => compilerArgs (configuration item))))
  <$> browseCompilerArgs b.
Proof.
  revert b. induction items as [|item items IH]; intros b; simpl.
  - by destruct (browseCompilerArgs b).
  - rewrite IH. simpl. destruct (browseCompilerArgs b) as [arr|]; [| done]. simpl.
    by rewrite pushed_app.
Qed.

Lemma foldInto_last (items : list SourceFileConfigurationItem)
    (b : WorkspaceBrowseConfiguration) :
  browseCompilerPath (fold_left (fun b item => foldInto item b) items b) =
    match last items with
    | Some item => Some (compilerPath (configuration item))
    | None => browseCompilerPath b
    end /\
  browseStandard (fold_left (fun b item => foldInto item b) items b) =
    match last items with
    | Some item => Some (standard (configuration item))
    | None => browseStandard b
    end.
Proof.
  revert b. induction items as [|item items IH]; intros b; [done |].
  cbn [fold_left]. destruct (IH (foldInto item b)) as [-> ->].
  rewrite last_cons. by destruct (last items).
Qed.

Section AggregateContents.
Context `{Host}.

(** X13.  After a rebuild that ends normally, a folder's browse paths are
    the paths it had, in their places, followed by the include paths of
    the attributed commands that it did not have, each once; and likewise
    its compiler arguments with the pass-through arguments. *)
Theorem aggregate_arrays_after_rebuild workspaceFolders cmds platform architecture
    w w' folder :
  updateCompileCommands workspaceFolders (JArr cmds) platform architecture w
  = (w', Normal ()) ->
  (forall paths,
     _workspaceBrowsePaths (this w) !! folder = Some paths ->
     exists added,
       _workspaceBrowsePaths (this w') !! folder = Some (paths ++ added) /\
       NoDup added /\
       forall x, x ∈ added <->
         (x ∉ paths) /\
         exists item,
           item ∈ contributors workspaceFolders folder cmds platform architecture /\
           x ∈ includePath (configuration item)) /\
  (forall args,
     _workspaceCompilerArgs (this w) !! folder = Some args ->
     exists added,
       _workspaceCompilerArgs (this w') !! folder = Some (args ++ added) /\
       NoDup added /\
       forall x, x ∈ added <->
         (x ∉ args) /\
         exists item,
           item ∈ contributors workspaceFolders folder cmds platform architecture /\
           x ∈ compilerArgs (configuration item)).
Proof.
  intros Hrun.
  pose proof (rebuild_browseOf _ _ _ _ _ _ folder Hrun) as Hagg.
  split.
  - intros paths Hpaths.
    apply (f_equal browsePath) in Hagg. rewrite foldInto_paths in Hagg.
    simpl in Hagg. rewrite Hpaths in Hagg. simpl in Hagg.
    destruct (pushed_appends
                (contributors workspaceFolders folder cmds platform architecture
                   ≫= (fun item => includePath (configuration item))) paths)
      as (added & Heq & Hnd & Hel).
    exists added. rewrite Hagg, Heq. split; [done |]. split; [done |].
    intros x. rewrite Hel, list_elem_of_bind. split.
    + intros [(item & Hx & Hitem) Hnot]. split; [done |]. by exists item.
    + intros [Hnot (item & Hitem & Hx)]. split; [| done]. by exists item.
  - intros args Hargs.
    apply (f_equal browseCompilerArgs) in Hagg. rewrite foldInto_args in Hagg.
    simpl in Hagg. rewrite Hargs in Hagg. simpl in Hagg.
    destruct (pushed_appends
                (contributors workspaceFolders folder cmds platform architecture
                   ≫= (fun item => compilerArgs (configuration item))) args)
      as (added & Heq & Hnd & Hel).
    exists added. rewrite Hagg, Heq. split; [done |]. split; [done |].
    intros x. rewrite Hel, list_elem_of_bind. split.
    + intros [(item & Hx & Hitem) Hnot]. split; [done |]. by exists item.
    + intros [Hnot (item & Hitem & Hx)]. split; [| done]. by exists item.
Qed.

(** X14.  After a rebuild that ends normally, a folder's compiler path and
    standard are those of one command, the last valid command whose file is
    attributed to the folder; with no such command they are what they were
    (so the values of an earlier database stay). *)
Theorem aggregate_last_write_after_rebuild workspaceFolders cmds platform architecture
    w w' folder :
  updateCompileCommands workspaceFolders (JArr cmds) platform architecture w
  = (w', Normal ()) ->
  _workspaceCompiler (this w') !! folder =
    match last (contributors workspaceFolders folder cmds platform architecture) with
    | Some item => Some (compilerPath (configuration item))
    | None => _workspaceCompiler (this w) !! folder
    end /\
  _workspaceStandard (this w') !! folder =
    match last (contributors workspaceFolders folder cmds platform architecture) with
    | Some item => Some (standard (configuration item))
    | None => _workspaceStandard (this w) !! folder
    end.
Proof.
  intros Hrun.
  pose proof (rebuild_browseOf _ _ _ _ _ _ folder Hrun) as Hagg.
  destruct (foldInto_last
              (contributors workspaceFolders folder cmds platform architecture)
              (browseOf (this w) folder)) as [Hcp Hstd].
  rewrite <- Hagg in Hcp, Hstd. done.
Qed.

End AggregateContents.

(** X16.  [pushIfNotExist] on an array makes it the union of what it held
    and what is pushed, and pushing the same strings again changes
    nothing; on [undefined] it does nothing when nothing is pushed and
    throws a [TypeError] otherwise. *)
Theorem pushIfNotExist_is_union (arr from : list string) :
  (exists out,
     pushIfNotExist (Some arr) from = Normal (Some out) /\
     (forall x, x ∈ out <-> x ∈ arr \/ x ∈ from) /\
     length out <= length arr + length from /\
     pushIfNotExist (Some out) from = Normal (Some out)) /\
  pushIfNotExist None [] = Normal None /\
  (from <> [] -> pushIfNotExist None from = Throw TypeError).
Proof.
  split; [| split; [done | by destruct from]].
  destruct (pushIfNotExist_appends from arr) as (added & Heq & Hnd & Hsub & Hel).
  exists (arr ++ added). split; [done |]. split; [| split].
  - intros x. rewrite elem_of_app, Hel.
    destruct (decide (x ∈ arr)); tauto.
  - rewrite length_app. apply sublist_length in Hsub. lia.
  - apply pushIfNotExist_absorbed. intros x Hx. by eapply pushIfNotExist_covers.
Qed.

Section Untouched.
Context `{Host}.

Lemma foldFolder_other item p g folder :
  g <> folder \/ attributed item folder = false ->
  browseOf (fst (foldFolder item p g)) folder = browseOf p folder.
Proof.
  intros Hother. rewrite foldFolder_attributed.
  destruct (attributed item g) eqn:Hattr; [| done].
  assert (Hne : g <> folder) by (destruct Hother; congruence).
  destruct (pushIfNotExist (_ !! g) (includePath _)) as [paths|e] eqn:Hpaths; [| done].
  pose proof (push_writeBack_lookup _ g folder _ _ Hpaths) as Hb.
  rewrite bool_decide_false in Hb by done.
  destruct (pushIfNotExist (_ !! g) (compilerArgs _)) as [args|e] eqn:Hargs;
    unfold browseOf; simpl; rewrite Hb; [| done].
  pose proof (push_writeBack_lookup _ g folder _ _ Hargs) as Hc.
  rewrite bool_decide_false in Hc by done.
  by rewrite Hc, !lookup_insert_ne.
Qed.

(** X15.  A rebuild never touches the aggregate of a folder that no valid
    command's file is attributed to, nor that of a folder that is not
    among the workspace folders at the time of the rebuild: its four
    entries are after the rebuild, however it ends, what they were
    before. *)
Theorem unattributed_folder_is_untouched workspaceFolders cmds platform architecture
    w folder :
  (forall item, item ∈ validItems cmds platform architecture ->
                attributed item folder = false) \/
  (forall folders, workspaceFolders = Some folders -> folder ∉ folders) ->
  browseOf (this (fst (updateCompileCommands workspaceFolders (JArr cmds)
                         platform architecture w))) folder
  = browseOf (this w) folder.
Proof.
  intros Hnone. rewrite updateCompileCommands_unfold. cbv zeta.
  apply (forEach_invariant_in
           (fun w' => browseOf (this w') folder = browseOf (this w) folder)); [| done].
  intros s cmd Hcmd Hs. rewrite processCommand_verdict.
  destruct (verdictOf cmd platform architecture) as [|e|item] eqn:Hverdict;
    simpl; try done.
  destruct workspaceFolders as [folders|]; [| done].
  pose proof (forEach_invariant_in
                (fun p => browseOf p folder = browseOf (this w) folder)
                (foldFolder item) folders (storeItem item (this s))) as Hloop.
  destruct (forEach _ folders _) as [p' r]. simpl in *. apply Hloop; [| done].
  intros p g Hg <-. apply foldFolder_other.
  destruct Hnone as [Hitems | Hfolders].
  - right. apply Hitems. unfold validItems. apply list_elem_of_omap.
    exists cmd. by rewrite Hverdict.
  - left. intros ->. by apply (Hfolders folders).
Qed.



End Untouched.

(** ** What the classifier looks at, and what it can return *)

Lemma startsWith_longer (a p x : string) :
  startsWith a (p +:+ x) = true -> startsWith a p = true.
Proof.
  unfold startsWith. revert a. induction p as [|c p IH]; intros a.
  - by destruct a.
  - rewrite string_app_cons. destruct a as [|c' a]; simpl; [done |].
    destruct (ascii_dec c c'); [apply IH | done].
Qed.

Lemma filter_within {A} (q r : A -> bool) (l : list A) :
  (forall a, q a = true -> r a = true) ->
  List.filter q l = List.filter q (List.filter r l).
Proof.
  intros Hqr. induction l as [|a l IH]; simpl; [done |].
  destruct (r a) eqn:Hr; simpl.
  - destruct (q a); by rewrite IH.
  - destruct (q a) eqn:Hq; [| done]. apply Hqr in Hq. congruence.
Qed.

Lemma find_within {A} (q r : A -> bool) (l : list A) :
  (forall a, q a = true -> r a = true) ->
  List.find q l = List.find q (List.filter r l).
Proof.
  intros Hqr. induction l as [|a l IH]; simpl; [done |].
  destruct (r a) eqn:Hr; simpl.
  - by destruct (q a).
  - destruct (q a) eqn:Hq; [| done]. apply Hqr in Hq. congruence.
Qed.

Lemma standardSwitch_range (std : string) : standardSwitch std ∈ recognizedStandards.
Proof.
  destruct (decide (std ∈ recognizedStandards)) as [Hin | Hnin].
  - by rewrite standardSwitch_recognized.
  - rewrite standardSwitch_other by done. unfold recognizedStandards.
    repeat constructor.
Qed.

Lemma modeSwitch_range (comp architecture : string) :
  modeSwitch ((comp +:+ "-") +:+ canonicalArch architecture) ∈ reachableModes.
Proof.
  rewrite (modeSwitch_pair _ _ (canonicalArch_cases architecture)).
  case_bool_decide as Hrow; [| by left].
  unfold modeTable in Hrow. rewrite !elem_of_cons, elem_of_nil in Hrow.
  destruct (canonicalArch_cases architecture) as [Ha | Ha]; rewrite Ha in *;
    repeat (destruct Hrow as [Hrow | Hrow];
            [first [discriminate Hrow
                   | injection Hrow as ->; apply (bool_decide_unpack _); by vm_compute] |]);
    done.
Qed.

Section ClassifierRange.
Context `{Host}.

(** X18.  The item of a command depends on its argument vector only
    through element 1 and the arguments that start with the flavor prefix:
    operands that do not (source files, the separate operand of an option)
    are ignored by every extractor. *)
Theorem item_ignores_operands (directory file platform architecture : string)
    (l l' : list string) (c : string) :
  l !! 1%nat = Some c ->
  l' !! 1%nat = Some c ->
  let prefix := if String.eqb (toLowerCase (path_basename c)) "cl" then "/" else "-" in
  List.filter (fun arg => startsWith arg prefix) l =
  List.filter (fun arg => startsWith arg prefix) l' ->
  makeItem directory file (argv l) platform architecture =
  makeItem directory file (argv l') platform architecture.
Proof.
  intros Hc Hc' prefix Hflags.
  rewrite (makeItem_argv _ _ _ _ l c Hc), (makeItem_argv _ _ _ _ l' c Hc'). cbv zeta.
  set (msvc := String.eqb _ "cl") in *.
  change prefix with (flavorPrefix msvc) in Hflags.
  assert (Hfilter : forall q : string -> bool,
            (forall a, q a = true -> startsWith a (flavorPrefix msvc) = true) ->
            List.filter q l = List.filter q l').
  { intros q Hq.
    rewrite (filter_within q (fun arg => startsWith arg (flavorPrefix msvc)) l Hq),
      (filter_within q (fun arg => startsWith arg (flavorPrefix msvc)) l' Hq).
    by rewrite Hflags. }
  assert (Hfind : forall q : string -> bool,
            (forall a, q a = true -> startsWith a (flavorPrefix msvc) = true) ->
            List.find q l = List.find q l').
  { intros q Hq.
    rewrite (find_within q (fun arg => startsWith arg (flavorPrefix msvc)) l Hq),
      (find_within q (fun arg => startsWith arg (flavorPrefix msvc)) l' Hq).
    by rewrite Hflags. }
  rewrite (Hfilter (fun arg => startsWith arg (flavorPrefix msvc +:+ "I")))
    by (intros a; apply startsWith_longer).
  rewrite (Hfilter (fun arg => startsWith arg (flavorPrefix msvc +:+ "D")))
    by (intros a; apply startsWith_longer).
  rewrite (Hfilter (passThrough msvc))
    by (intros a; unfold passThrough; rewrite !andb_true_iff; tauto).
  rewrite (Hfind (fun arg => startsWith arg
                    (flavorPrefix msvc +:+ (if msvc then "std:" else "std="))))
    by (intros a; apply startsWith_longer).
  reflexivity.
Qed.

(** X19.  [findIntelliSenseMode] returns one of six identifiers, the
    [x86] and [x64] modes of [msvc], [gcc] and [clang]: no [arm] or [arm64]
    mode is ever returned, and the platform has no part in the result. *)
Theorem findIntelliSenseMode_range (args : option json)
    (platform architecture mode : string) :
  findIntelliSenseMode args platform architecture = Normal mode ->
  mode ∈ reachableModes /\
  forall platform', findIntelliSenseMode args platform' architecture = Normal mode.
Proof.
  unfold findIntelliSenseMode. destruct (findCompiler args) as [comp|e]; [| done].
  simpl. intros [= <-]. split; [| done].
  apply (modeSwitch_range comp architecture).
Qed.

Lemma makeItem_wellKeyed directory file arguments platform architecture item :
  makeItem directory file arguments platform architecture = Normal item ->
  wellKeyed (Uri_file_fsPath (uri item)) item.
Proof.
  intros Hitem.
  destruct (proj1 (proj1 (makeItem_domain directory file platform
                            architecture arguments)) (ex_intro _ item Hitem))
    as (l & c & -> & Hc).
  rewrite (makeItem_argv _ _ _ _ l c Hc) in Hitem. injection Hitem as <-.
  split; [done |]. split; [by eexists |]. simpl. split.
  - destruct (List.find _ l); [apply standardSwitch_range |].
    unfold recognizedStandards. repeat constructor.
  - apply modeSwitch_range.
Qed.

Lemma verdict_Valid_wellKeyed cmd platform architecture item :
  verdictOf cmd platform architecture = Valid item ->
  wellKeyed (Uri_file_fsPath (uri item)) item.
Proof.
  unfold verdictOf.
  destruct (getProp cmd "directory") as [[[]|]|]; try done;
    destruct (getProp cmd "file") as [[[]|]|]; try done;
    destruct (getProp cmd "arguments") as [arguments|]; try done.
  destruct (String.eqb (typeof arguments) "object"); [| done].
  destruct (makeItem _ _ _ _ _) as [item'|e] eqn:Hitem; [| done].
  intros [= <-]. by eapply makeItem_wellKeyed.
Qed.

(** X20.  Whatever the provider held and however the rebuild ends, every
    entry of the per-file map after it is the item of a valid command of
    the database, under the [fsPath] of its own [uri]; nothing of the
    earlier map is left.  Such an item has a string for compiler path, one
    of the 20 standards and one of the six modes. *)
Theorem files_hold_items_of_the_database workspaceFolders compileCommands
    platform architecture w (key : string) (item : SourceFileConfigurationItem) :
  _sourceFileConfigurations
    (this (fst (updateCompileCommands workspaceFolders compileCommands
                  platform architecture w))) !! key = Some item ->
  (exists cmds,
     compileCommands = JArr cmds /\ item ∈ validItems cmds platform architecture) /\
  wellKeyed key item.
Proof.
  rewrite updateCompileCommands_unfold. cbv zeta.
  destruct compileCommands as [| | | |cmds|]; simpl;
    try (rewrite lookup_empty; done).
  set (P := fun w' : world =>
              forall key item,
                _sourceFileConfigurations (this w') !! key = Some item ->
                item ∈ validItems cmds platform architecture /\ wellKeyed key item).
  assert (HP : P (fst (forEach (processCommand workspaceFolders platform architecture)
                         cmds {| this := cleared (this w); console := console w |}))).
  { apply forEach_invariant_in.
    - intros s cmd Hcmd Hs. rewrite processCommand_verdict.
      destruct (verdictOf cmd platform architecture) as [|e|it] eqn:Hverdict;
        try done.
      intros k i. rewrite applyVerdict_Valid_files.
      destruct (decide (Uri_file_fsPath (uri it) = k)) as [<- | Hne].
      + rewrite lookup_insert_eq. intros [= <-]. split.
        * unfold validItems. apply list_elem_of_omap. exists cmd. by rewrite Hverdict.
        * by eapply verdict_Valid_wellKeyed.
      + rewrite lookup_insert_ne by done. apply Hs.
    - intros k i. simpl. by rewrite lookup_empty. }
  intros Hlookup. destruct (HP key item Hlookup) as [Hin Hkey].
  split; [by exists cmds | done].
Qed.

End ClassifierRange.

(** ** Instances of the further properties *)

Lemma scenario_run :
  @updateCompileCommands posixHost (Some ["/p"]) (JArr [scenarioEntry])
    "linux" "x86_64" freshWorld = (scenarioRebuilt, Normal ()).
Proof.
  unfold scenarioRebuilt.
  destruct (@updateCompileCommands posixHost (Some ["/p"]) (JArr [scenarioEntry])
              "linux" "x86_64" freshWorld) as [w' r] eqn:Hrun.
  assert (Hend : snd (@updateCompileCommands posixHost (Some ["/p"])
                        (JArr [scenarioEntry]) "linux" "x86_64" freshWorld) = Normal ())
    by (vm_compute; reflexivity).
  rewrite Hrun in Hend. simpl in *. by subst r.
Qed.

Lemma scenario_rebuilds : @rebuilds posixHost freshProvider (this scenarioRebuilt).
Proof.
  apply (@rebuilds_more posixHost freshProvider freshProvider (Some ["/p"])
           (JArr [scenarioEntry]) "linux" "x86_64" []).
  apply rebuilds_none.
Qed.

Lemma findDefines_verbatim_witness :
  ["sh"; "/usr/bin/g++"; "-DFOO=1"; "-DBAR"] !! 1%nat = Some "/usr/bin/g++" /\
  "-DFOO=1" ∈ ["sh"; "/usr/bin/g++"; "-DFOO=1"; "-DBAR"] /\
  exists defs,
    @findDefines posixHost (argv ["sh"; "/usr/bin/g++"; "-DFOO=1"; "-DBAR"]) = Normal defs /\
    "FOO=1" ∈ defs.
Proof.
  assert (Hin : "-DFOO=1" ∈ ["sh"; "/usr/bin/g++"; "-DFOO=1"; "-DBAR"])
    by (repeat constructor).
  split; [reflexivity |]. split; [exact Hin |].
  destruct (@findDefines_verbatim posixHost ["sh"; "/usr/bin/g++"; "-DFOO=1"; "-DBAR"]
              "/usr/bin/g++" eq_refl) as (defs & Hrun & _ & _ & Hvalue).
  exists defs. split; [exact Hrun |]. exact (Hvalue "FOO" "1" Hin).
Defined.



Lemma files_after_rebuild_witness :
  @updateCompileCommands posixHost (Some ["/p"]) (JArr [scenarioEntry])
    "linux" "x86_64" freshWorld = (scenarioRebuilt, Normal ()) /\
  _sourceFileConfigurations (this scenarioRebuilt) =
  list_to_map (reverse (@keyedItems posixHost [scenarioEntry] "linux" "x86_64")).
Proof.
  split; [exact scenario_run |].
  exact (@files_after_rebuild posixHost _ _ _ _ _ _ scenario_run).
Defined.


Lemma canProvideConfiguration_after_rebuild_witness :
  @updateCompileCommands posixHost (Some ["/p"]) (JArr [scenarioEntry])
    "linux" "x86_64" freshWorld = (scenarioRebuilt, Normal ()) /\
  (canProvideConfiguration (this scenarioRebuilt) "/p/a.cpp" = true <->
   exists item,
     item ∈ @validItems posixHost [scenarioEntry] "linux" "x86_64" /\
     @Uri_file_fsPath posixHost (uri item) = "/p/a.cpp").
Proof.
  split; [exact scenario_run |].
  exact (@canProvideConfiguration_after_rebuild posixHost _ _ _ _ _ _ "/p/a.cpp"
           scenario_run).
Defined.


Lemma tracked_folders_are_fixed_witness :
  constructor (Some ["/p"]) = Normal freshProvider /\
  @rebuilds posixHost freshProvider (this scenarioRebuilt) /\
  provideFolderBrowseConfiguration (this scenarioRebuilt) "/q" = None /\
  canProvideBrowseConfiguration (this scenarioRebuilt) = true.
Proof.
  split; [reflexivity |]. split; [exact scenario_rebuilds |].
  destruct (@tracked_folders_are_fixed posixHost ["/p"] freshProvider
              (this scenarioRebuilt) eq_refl scenario_rebuilds) as (Hfolder & Hcan & _).
  split; [| exact Hcan].
  apply (proj2 (Hfolder "/q")). intros Hin.
  apply list_elem_of_singleton in Hin. discriminate Hin.
Defined.

Lemma aggregate_after_rebuild_witness :
  @updateCompileCommands posixHost (Some ["/p"]) (JArr [scenarioEntry])
    "linux" "x86_64" freshWorld = (scenarioRebuilt, Normal ()) /\
  browseOf (this scenarioRebuilt) "/p" =
  fold_left (fun b item => foldInto item b)
    (@contributors posixHost (Some ["/p"]) "/p" [scenarioEntry] "linux" "x86_64")
    (browseOf freshProvider "/p").
Proof.
  split; [exact scenario_run |].
  exact (@aggregate_after_rebuild posixHost _ _ _ _ _ _ "/p" scenario_run).
Defined.

Lemma aggregate_arrays_after_rebuild_witness :
  @updateCompileCommands posixHost (Some ["/p"]) (JArr [scenarioEntry])
    "linux" "x86_64" freshWorld = (scenarioRebuilt, Normal ()) /\
  _workspaceBrowsePaths freshProvider !! "/p" = Some [] /\
  exists added,
    _workspaceBrowsePaths (this scenarioRebuilt) !! "/p" = Some ([] ++ added) /\
    NoDup added.
Proof.
  split; [exact scenario_run |]. split; [reflexivity |].
  destruct (proj1 (@aggregate_arrays_after_rebuild posixHost _ _ _ _ _ _ "/p"
                     scenario_run) [] eq_refl) as (added & Hlookup & Hnd & _).
  exists added. by split.
Defined.

Lemma aggregate_last_write_after_rebuild_witness :
  @updateCompileCommands posixHost (Some ["/p"]) (JArr [scenarioEntry])
    "linux" "x86_64" freshWorld = (scenarioRebuilt, Normal ()) /\
  _workspaceStandard (this scenarioRebuilt) !! "/p" =
    match last (@contributors posixHost (Some ["/p"]) "/p" [scenarioEntry]
                  "linux" "x86_64") with
    | Some item => Some (standard (configuration item))
    | None => _workspaceStandard freshProvider !! "/p"
    end.
Proof.
  split; [exact scenario_run |].
  exact (proj2 (@aggregate_last_write_after_rebuild posixHost _ _ _ _ _ _ "/p"
                  scenario_run)).
Defined.

Lemma unattributed_folder_is_untouched_witness :
  (forall folders, Some ["/p"] = Some folders -> "/q" ∉ folders) /\
  browseOf (this scenarioRebuilt) "/q" = browseOf freshProvider "/q".
Proof.
  assert (Hnot : forall folders, Some ["/p"] = Some folders -> "/q" ∉ folders).
  { intros folders [= <-] Hin. apply list_elem_of_singleton in Hin. discriminate Hin. }
  split; [exact Hnot |].
  apply (@unattributed_folder_is_untouched posixHost (Some ["/p"]) [scenarioEntry]
           "linux" "x86_64" freshWorld "/q").
  right. exact Hnot.
Defined.


Lemma item_ignores_operands_witness :
  scenarioArguments !! 1%nat = Some "/usr/bin/g++" /\
  (scenarioArguments ++ ["a.cpp"]) !! 1%nat = Some "/usr/bin/g++" /\
  List.filter (fun arg => startsWith arg "-") scenarioArguments =
  List.filter (fun arg => startsWith arg "-") (scenarioArguments ++ ["a.cpp"]) /\
  @makeItem posixHost "/p" "/p/a.cpp" (argv scenarioArguments) "linux" "x86_64" =
  @makeItem posixHost "/p" "/p/a.cpp" (argv (scenarioArguments ++ ["a.cpp"]))
    "linux" "x86_64".
Proof.
  split; [reflexivity |]. split; [reflexivity |]. split; [reflexivity |].
  exact (@item_ignores_operands posixHost "/p" "/p/a.cpp" "linux" "x86_64"
           scenarioArguments (scenarioArguments ++ ["a.cpp"]) "/usr/bin/g++"
           eq_refl eq_refl eq_refl).
Defined.

Lemma findIntelliSenseMode_range_witness :
  @findIntelliSenseMode posixHost (argv ["sh"; "/usr/bin/gcc"]) "linux" "x86"
  = Normal "gcc-x86" /\
  "gcc-x86" ∈ reachableModes /\
  @findIntelliSenseMode posixHost (argv ["sh"; "/usr/bin/gcc"]) "windows" "x86"
  = Normal "gcc-x86".
Proof.
  split; [reflexivity |].
  destruct (@findIntelliSenseMode_range posixHost (argv ["sh"; "/usr/bin/gcc"])
              "linux" "x86" "gcc-x86" eq_refl) as [Hmode Hplat].
  split; [exact Hmode | exact (Hplat "windows")].
Defined.

Lemma files_hold_items_of_the_database_witness :
  _sourceFileConfigurations (this scenarioRebuilt) !! "/p/a.cpp" = Some scenarioItem /\
  @wellKeyed posixHost "/p/a.cpp" scenarioItem.
Proof.
  assert (Hlookup : _sourceFileConfigurations (this scenarioRebuilt) !! "/p/a.cpp"
                    = Some scenarioItem) by (vm_compute; reflexivity).
  split; [exact Hlookup |].
  exact (proj2 (@files_hold_items_of_the_database posixHost (Some ["/p"])
                  (JArr [scenarioEntry]) "linux" "x86_64" freshWorld
                  "/p/a.cpp" scenarioItem Hlookup)).
Defined.
